(** * Verification of the hybrid retrieval engine of rag-knowledge-base

    The development embeds [src/rag_chain.py] (query expansion, keyword
    extraction, embedding with retries, the hybrid search query and the
    context formatter) and the metadata written by [src/ingest.py], and
    proves or refutes the properties claimed about them.

    Python values are modelled as follows.
    - [str] is a list of Unicode code points, so that [len], slicing and
      [in] count characters as Python does.  Literals are written as UTF-8
      text and decoded by [py].
    - a [dict] whose iteration order matters is an association list in
      insertion order; a [set] used for membership only is a list.
    - an exception is a value of [exn]; code that can raise returns a
      [result].
    - the scores computed by the database are exact rationals. *)

From Stdlib Require Import Strings.String Strings.Ascii Numbers.DecimalString.
From Stdlib Require Import Bool Arith ZArith NArith QArith Lia.
From Stdlib Require Import List Sorting.Permutation Sorting.Sorted.
Import ListNotations.
Close Scope Q_scope.

(** ** Python strings *)

Module Py.

Definition str := list N.

(** UTF-8 decoder for literals: [need] continuation bytes are still expected
    for the code point accumulated in [acc]. *)
Fixpoint utf8 (bs : list N) (need : nat) (acc : N) : str :=
  match bs with
  | [] => []
  | b :: r =>
      match need with
      | O =>
          if (b <? 128)%N then b :: utf8 r 0 0%N
          else if (b <? 224)%N then utf8 r 1 (b - 192)%N
          else if (b <? 240)%N then utf8 r 2 (b - 224)%N
          else utf8 r 3 (b - 240)%N
      | S O => (acc * 64 + (b - 128))%N :: utf8 r 0 0%N
      | S n => utf8 r n (acc * 64 + (b - 128))%N
      end
  end.

Definition py (s : string) : str :=
  utf8 (map N_of_ascii (list_ascii_of_string s)) 0 0%N.

Definition len (s : str) : nat := List.length s.

Fixpoint str_eqb (a b : str) : bool :=
  match a, b with
  | [], [] => true
  | x :: a', y :: b' => (x =? y)%N && str_eqb a' b'
  | _, _ => false
  end.

(** [x in l] for a list or a set of strings. *)
Definition mem (x : str) (l : list str) : bool := existsb (str_eqb x) l.

(** [s.startswith(p)] *)
Fixpoint startswith (s p : str) {struct p} : bool :=
  match p, s with
  | [], _ => true
  | x :: p', y :: s' => (x =? y)%N && startswith s' p'
  | _ :: _, [] => false
  end.

(** [sub in s]: [sub] occurs in [s] as a contiguous substring. *)
Fixpoint contains (sub s : str) : bool :=
  startswith s sub ||
  match s with
  | [] => false
  | _ :: s' => contains sub s'
  end.

(** [s.endswith(suffix)] *)
Definition endswith (s suffix : str) : bool :=
  (len suffix <=? len s) && str_eqb (skipn (len s - len suffix) s) suffix.

(** [s[:-n]] for [n >= 0]; Python reads [s[:-0]] as [s[:0]]. *)
Definition slice_to_neg (s : str) (n : nat) : str :=
  match n with
  | O => []
  | _ => firstn (len s - n) s
  end.

(** [str.isspace] on one character: the Unicode white space that
    [split()] and [strip()] without arguments act on. *)
Definition isspace (c : N) : bool :=
  ((9 <=? c) && (c <=? 13) || (28 <=? c) && (c <=? 32) ||
   (c =? 133) || (c =? 160) || (c =? 5760) ||
   (8192 <=? c) && (c <=? 8202) || (c =? 8232) || (c =? 8233) ||
   (c =? 8239) || (c =? 8287) || (c =? 12288))%N.

Definition flush (cur : str) : list str :=
  match cur with
  | [] => []
  | _ => [cur]
  end.

(** [s.split()]: maximal runs of non-space characters; [cur] is the run
    being read. *)
Fixpoint split_from (s cur : str) : list str :=
  match s with
  | [] => flush cur
  | c :: r =>
      if isspace c then flush cur ++ split_from r []
      else split_from r (cur ++ [c])
  end.

Definition split (s : str) : list str := split_from s [].

Fixpoint lstrip (s : str) : str :=
  match s with
  | c :: r => if isspace c then lstrip r else s
  | [] => []
  end.

(** [s.strip()] *)
Definition strip (s : str) : str := rev (lstrip (rev (lstrip s))).

(** [sep.join(l)] *)
Fixpoint join (sep : str) (l : list str) : str :=
  match l with
  | [] => []
  | [x] => x
  | x :: r => x ++ sep ++ join sep r
  end.

(** [str(n)] for an integer. *)
Definition str_of_Z (n : Z) : str :=
  map N_of_ascii (list_ascii_of_string (NilZero.string_of_int (Z.to_int n))).

(** [list(dict.fromkeys(l))]: a key that is already present keeps its
    place, a new one goes last. *)
Definition fromkeys_step (d : list str) (x : str) : list str :=
  if mem x d then d else d ++ [x].

Definition list_dict_fromkeys (l : list str) : list str :=
  fold_left fromkeys_step l [].

(** A stable insertion sort; [leb x y] tells that [x] may stand before
    [y].  Elements that may stand either way keep the order of the input. *)
Fixpoint insert_by {A : Type} (leb : A -> A -> bool) (x : A) (l : list A)
  : list A :=
  match l with
  | [] => [x]
  | y :: r => if leb x y then x :: l else y :: insert_by leb x r
  end.

Definition sorted_by {A : Type} (leb : A -> A -> bool) (l : list A) : list A :=
  fold_right (insert_by leb) [] l.

(** [sorted(l, key=len, reverse=True)]: longest first, and stable, so
    strings of one length keep their order. *)
Definition sorted_by_len_reverse (l : list str) : list str :=
  sorted_by (fun x y => len y <=? len x) l.

(** [d.get(key)] for a dict kept as an association list. *)
Fixpoint dict_get {V : Type} (d : list (str * V)) (key : str) : option V :=
  match d with
  | [] => None
  | (k, v) :: r => if str_eqb k key then Some v else dict_get r key
  end.

End Py.

(** ** [src/rag_chain.py]: query expansion and keyword extraction *)

Module RagChain.
Import Py.

(** [KR_EN_MAP], in the order the dict literal lists its items. *)
Definition KR_EN_MAP : list (str * str) :=
  [
    (py "태재대학교", py "Taejae TAEJAE taejae.ac.kr");
    (py "태재", py "Taejae TAEJAE taejae");
    (py "비전", py "vision visions");
    (py "목표", py "goal goals objective");
    (py "교육", py "education educational");
    (py "철학", py "philosophy");
    (py "인재", py "talent leader");
    (py "핵심역량", py "core competency");
    (py "학생", py "student students");
    (py "캠퍼스", py "campus");
    (py "글로벌", py "global");
    (py "혁신", py "innovation");
    (py "미래", py "future");
    (py "학습", py "learning study");
    (py "리더", py "leader leadership");
    (py "연구", py "research");
    (py "개발", py "development");
    (py "기술", py "technology");
    (py "과학", py "science");
    (py "공학", py "engineering");
    (py "경영", py "management business");
    (py "경제", py "economics economy");
    (py "사회", py "society social");
    (py "문화", py "culture cultural");
    (py "정책", py "policy");
    (py "전략", py "strategy strategic");
    (py "계획", py "plan planning");
    (py "평가", py "evaluation assessment");
    (py "분석", py "analysis");
    (py "설계", py "design");
    (py "구현", py "implementation");
    (py "운영", py "operation management");
    (py "관리", py "management administration");
    (py "시스템", py "system");
    (py "프로그램", py "program");
    (py "프로젝트", py "project");
    (py "데이터", py "data");
    (py "정보", py "information");
    (py "보안", py "security");
    (py "네트워크", py "network");
    (py "서버", py "server");
    (py "클라우드", py "cloud");
    (py "인공지능", py "artificial intelligence AI");
    (py "머신러닝", py "machine learning");
    (py "딥러닝", py "deep learning");
    (py "알고리즘", py "algorithm");
    (py "소프트웨어", py "software");
    (py "하드웨어", py "hardware");
    (py "입학", py "admission enrollment");
    (py "졸업", py "graduation");
    (py "장학금", py "scholarship");
    (py "등록금", py "tuition fee");
    (py "수업", py "class course lecture");
    (py "시험", py "exam examination");
    (py "성적", py "grade score");
    (py "학점", py "credit");
    (py "교수", py "professor faculty");
    (py "직원", py "staff employee");
    (py "규정", py "regulation rule");
    (py "규칙", py "rule");
    (py "지침", py "guideline");
    (py "정관", py "articles charter");
    (py "예산", py "budget");
    (py "회계", py "accounting finance");
    (py "계약", py "contract agreement");
    (py "구매", py "procurement purchase");
    (py "출장", py "business trip travel");
    (py "여비", py "travel expenses");
    (py "인사", py "personnel HR");
    (py "복무", py "service duty");
    (py "급여", py "salary pay");
    (py "보수", py "compensation remuneration");
    (py "채용", py "recruitment hiring");
    (py "퇴직", py "retirement resignation");
    (py "징계", py "discipline disciplinary");
    (py "상벌", py "reward punishment");
    (py "안전", py "safety");
    (py "환경", py "environment");
    (py "시설", py "facility facilities");
    (py "건물", py "building");
    (py "도서관", py "library");
    (py "기숙사", py "dormitory");
    (py "위원회", py "committee commission");
    (py "회의", py "meeting conference");
    (py "보고서", py "report");
    (py "문서", py "document");
    (py "승인", py "approval");
    (py "허가", py "permission permit");
    (py "감사", py "audit inspection");
    (py "점검", py "inspection check");
    (py "협력", py "cooperation collaboration");
    (py "파트너", py "partner partnership");
    (py "산학", py "industry-academia");
    (py "산학협력", py "industry-academia cooperation");
    (py "특허", py "patent");
    (py "저작권", py "copyright");
    (py "논문", py "thesis paper");
    (py "학위", py "degree");
    (py "커리큘럼", py "curriculum");
    (py "교과", py "curriculum course");
    (py "성과", py "performance result");
    (py "목적", py "purpose objective");
    (py "조직", py "organization");
    (py "부서", py "department division")
  ].

(** The body of [for kr, en in KR_EN_MAP.items()] in [expand_query]. *)
Definition expand_step (query expanded : str) (item : str * str) : str :=
  let (kr, en) := item in
  if contains kr query then expanded ++ py " " ++ en else expanded.

Definition expand_query (query : str) : str :=
  fold_left (expand_step query) KR_EN_MAP query.

Definition stop_words : list str :=
  map py
    ["은"; "는"; "이"; "가"; "을"; "를"; "의"; "에"; "에서"; "으로"; "로";
     "와"; "과"; "도"; "만"; "까지"; "부터"; "에게"; "한테"; "께";
     "있다"; "없다"; "하다"; "되다"; "이다"; "아니다";
     "그"; "이"; "저"; "것"; "수"; "등"; "및"; "또는"; "그리고";
     "무엇"; "어떤"; "어떻게"; "왜"; "언제"; "어디";
     "좀"; "더"; "매우"; "가장"; "정말"; "아주";
     "대해"; "대한"; "관한"; "관해"; "대하여"; "관하여";
     "알려"; "알려줘"; "설명"; "뭐"; "뭔가"; "인가"; "인지"]%string.

Definition suffixes : list str :=
  map py
    ["은"; "는"; "이"; "가"; "을"; "를"; "의"; "에서"; "에게"; "으로";
     "에"; "로"; "와"; "과"; "도"; "만"; "요"; "까"]%string.

(** The characters of the class that [re.sub] replaces by a space in
    [extract_keywords]: ASCII punctuation, full-width parentheses, corner
    brackets, and the double quote (code point 34, appended by number). *)
Definition punctuation : str :=
  py "?!.,;:'()（）「」『』[]{}" ++ [34%N].

Definition space : N := 32%N.

Definition re_sub_punctuation (query : str) : str :=
  map (fun c => if existsb (N.eqb c) punctuation then space else c) query.

(** The inner loop [for suffix in sorted(...)] with its [break]. *)
Fixpoint strip_first_suffix (stripped : str) (sorted_suffixes : list str) : str :=
  match sorted_suffixes with
  | [] => stripped
  | suffix :: rest =>
      if (len suffix + 1 <? len stripped) && endswith stripped suffix
      then slice_to_neg stripped (len suffix)
      else strip_first_suffix stripped rest
  end.

(** [for en_word in KR_EN_MAP[base].split()] *)
Definition append_en_word (keywords : list str) (en_word : str) : list str :=
  if 2 <=? len en_word then keywords ++ [en_word] else keywords.

(** One iteration of [for token in tokens], from the list [keywords] built
    so far to the list after the iteration. *)
Definition extract_step (keywords : list str) (token0 : str) : list str :=
  let token := strip token0 in
  if (len token <? 2) || mem token stop_words then keywords
  else
    let stripped := strip_first_suffix token (sorted_by_len_reverse suffixes) in
    let base := if 2 <=? len stripped then stripped else token in
    let keywords := keywords ++ [base] in
    let keywords := if negb (str_eqb base token) then keywords ++ [token] else keywords in
    match dict_get KR_EN_MAP base with
    | Some en => fold_left append_en_word (split en) keywords
    | None => keywords
    end.

Definition extract_keywords (query : str) : list str :=
  let cleaned := re_sub_punctuation query in
  let tokens := split cleaned in
  let keywords := fold_left extract_step tokens [] in
  list_dict_fromkeys keywords.

(** ** Exceptions and the world the effectful functions run in *)

Inductive exn : Type := Exception (msg : str).

(** [str(e)] *)
Definition str_of_exn (e : exn) : str := let (msg) := e in msg.

Inductive result (A : Type) : Type :=
| Ok (a : A)
| Raise (e : exn).
Arguments Ok {A} a.
Arguments Raise {A} e.

Definition vector := list Q.

Inductive json : Type :=
| JStr (s : str)
| JInt (n : Z).

Definition dict := list (str * json).

(** [langchain_core.documents.Document] *)
Record Document : Type := mkDocument {
  page_content : str;
  metadata : dict
}.

(** A row of the table [documents]. *)
Record row : Type := mkRow {
  content : str;
  embedding : vector;
  row_metadata : dict
}.

(** What lies outside the program: the remote embedding model, answering
    its [n]-th call on a text; the sleeps made so far; the table; and the
    faults of the connection.  [connect_error] is raised by
    [get_db_connection()], [conn.rollback()] or [conn.cursor()],
    [execute_error] by [cur.execute] or [cur.fetchall]. *)
Record world : Type := mkWorld {
  embed_content : nat -> str -> result vector;
  calls : nat;
  slept : list Z;
  documents : list row;
  connect_error : option exn;
  execute_error : option exn
}.

(** Computations that read and change the world and may raise. *)
Definition M (A : Type) : Type := world -> result A * world.

Definition ret {A : Type} (a : A) : M A := fun w => (Ok a, w).

Definition raise {A : Type} (e : exn) : M A := fun w => (Raise e, w).

Definition bind {A B : Type} (m : M A) (f : A -> M B) : M B :=
  fun w =>
    match m w with
    | (Ok a, w') => f a w'
    | (Raise e, w') => (Raise e, w')
    end.

(** [try: m  except Exception as e: handler(e)] *)
Definition try_except {A : Type} (m : M A) (handler : exn -> M A) : M A :=
  fun w =>
    match m w with
    | (Ok a, w') => (Ok a, w')
    | (Raise e, w') => handler e w'
    end.

Notation "x <- m ;; f" := (bind m (fun x => f))
  (at level 61, m at next level, right associativity).

(** ** [embed_texts] and [embed_query] *)

(** [client.models.embed_content(...)] followed by
    [result.embeddings[0].values], inside the [try]: the outcome is handed
    back as a value and the call is counted. *)
Definition call_embed_content (text : str) : M (result vector) :=
  fun w =>
    (Ok (embed_content w (calls w) text),
     mkWorld (embed_content w) (S (calls w)) (slept w) (documents w)
             (connect_error w) (execute_error w)).

(** [time.sleep(seconds)]; the delays are whole seconds. *)
Definition sleep (seconds : Z) : M unit :=
  fun w =>
    (Ok tt,
     mkWorld (embed_content w) (calls w) (slept w ++ [seconds]) (documents w)
             (connect_error w) (execute_error w)).

(** [range(n)] *)
Definition range (n : Z) : list Z := map Z.of_nat (seq 0 (Z.to_nat n)).

Definition embedding_failed (max_retries : Z) (e : exn) : exn :=
  Exception (py "Embedding failed after " ++ str_of_Z max_retries ++
             py " retries: " ++ str_of_exn e).

(** [for attempt in range(max_retries)] for one text.  [Some values] when
    the loop is left by [break], [None] when the range runs out. *)
Fixpoint embed_attempts (text : str) (max_retries : Z) (attempts : list Z)
  : M (option vector) :=
  match attempts with
  | [] => ret None
  | attempt :: rest =>
      r <- call_embed_content text ;;
      match r with
      | Ok values => ret (Some values)
      | Raise e =>
          if (attempt <? max_retries - 1)%Z
          then _ <- sleep (1 * (attempt + 1))%Z ;;
               embed_attempts text max_retries rest
          else raise (embedding_failed max_retries e)
      end
  end.

(** [for text in texts], with [all_embeddings] as built so far. *)
Fixpoint embed_texts_from (texts : list str) (max_retries : Z)
    (all_embeddings : list vector) : M (list vector) :=
  match texts with
  | [] => ret all_embeddings
  | text :: rest =>
      r <- embed_attempts text max_retries (range max_retries) ;;
      match r with
      | Some values =>
          embed_texts_from rest max_retries (all_embeddings ++ [values])
      | None => embed_texts_from rest max_retries all_embeddings
      end
  end.

Definition default_max_retries : Z := 5.

Definition embed_texts (texts : list str) (max_retries : Z) : M (list vector) :=
  embed_texts_from texts max_retries [].

(** [embed_texts([query], api_key, max_retries)[0]] *)
Definition embed_query (query : str) (max_retries : Z) : M vector :=
  embeddings <- embed_texts [query] max_retries ;;
  match embeddings with
  | v :: _ => ret v
  | [] => raise (Exception (py "list index out of range"))
  end.

(** ** The statements [search_similar_documents] sends to the database *)

(** A text operand: the column [content] or [metadata->>'key']. *)
Inductive sql_text : Type :=
| Content
| Meta (key : str).

Inductive sql_cond : Type :=
| ILike (t : sql_text) (kw : str)      (* t ILIKE '%kw%' *)
| Or (a b : sql_cond)
| And (a b : sql_cond).

(** [(CASE WHEN c THEN x ELSE y END)] *)
Inductive sql_case : Type := Case (c : sql_cond) (x y : Q).

(** The lambda [content_or_meta]. *)
Definition content_or_meta (kw : str) : sql_cond :=
  Or (Or (ILike Content kw) (ILike (Meta (py "filename")) kw))
     (ILike (Meta (py "source")) kw).

(** [" OR ".join(...)] and [" AND ".join(...)] over the conditions of a
    keyword list [kw :: kws]; both operators associate to the left. *)
Definition keyword_conditions (kw : str) (kws : list str) : sql_cond :=
  fold_left Or (map content_or_meta kws) (content_or_meta kw).

Definition all_match_conditions (kw : str) (kws : list str) : sql_cond :=
  fold_left And (map content_or_meta kws) (content_or_meta kw).

Definition boost_parts (kw : str) (kws : list str) : list sql_case :=
  map (fun kw' => Case (content_or_meta kw') (3 # 100)%Q 0%Q) (kw :: kws) ++
  [Case (all_match_conditions kw kws) (3 # 10)%Q 0%Q].

Definition keyword_count_expr (kw : str) (kws : list str) : list sql_case :=
  map (fun kw' => Case (content_or_meta kw') 1%Q 0%Q) (kw :: kws).

Inductive statement : Type :=
| HybridSearch (vec : vector) (kw : str) (kws : list str) (k : Z)
| VectorSearch (vec : vector) (k : Z).

(** A row of the common table expressions: [content], [metadata] and
    [base_similarity]. *)
Record scored : Type := mkScored {
  s_content : str;
  s_metadata : dict;
  base_similarity : Q
}.

(** A fetched row: [content], [metadata] and the similarity column. *)
Definition hit : Type := (str * dict * Q)%type.

Fixpoint str_compare (a b : str) : comparison :=
  match a, b with
  | [], [] => Eq
  | [], _ :: _ => Lt
  | _ :: _, [] => Gt
  | x :: a', y :: b' =>
      match (x ?= y)%N with
      | Eq => str_compare a' b'
      | c => c
      end
  end.

(** [ORDER BY]: SQL leaves the order of ties open; they stay here in the
    order of the input. *)
Definition order_by {A : Type} (leb : A -> A -> bool) (l : list A) : list A :=
  sorted_by leb l.

(** [LIMIT n]; PostgreSQL rejects a negative count. *)
Definition limit {A : Type} (n : Z) (l : list A) : result (list A) :=
  if (n <? 0)%Z then Raise (Exception (py "LIMIT must not be negative"))
  else Ok (firstn (Z.to_nat n) l).

(** [SELECT DISTINCT ON (content)] over ordered rows: the first row of
    each content is kept. *)
Fixpoint distinct_on_content (seen : list str) (rows : list scored)
  : list scored :=
  match rows with
  | [] => []
  | r :: rest =>
      if mem (s_content r) seen then distinct_on_content seen rest
      else r :: distinct_on_content (s_content r :: seen) rest
  end.

(** SQL's three-valued logic: [None] is NULL. *)
Definition or3 (a b : option bool) : option bool :=
  match a, b with
  | Some true, _ | _, Some true => Some true
  | Some false, Some false => Some false
  | _, _ => None
  end.

Definition and3 (a b : option bool) : option bool :=
  match a, b with
  | Some false, _ | _, Some false => Some false
  | Some true, Some true => Some true
  | _, _ => None
  end.

(** The operator [->>] gives the text of a JSON value. *)
Definition json_text (v : json) : str :=
  match v with
  | JStr s => s
  | JInt n => str_of_Z n
  end.

Section Database.

(** pgvector's [<=>] and the database's [text ILIKE '%kw%'], taken as
    given. *)
Variable cosine_distance : vector -> vector -> Q.
Variable ilike : str -> str -> bool.

Definition eval_text (r : scored) (t : sql_text) : option str :=
  match t with
  | Content => Some (s_content r)
  | Meta key => option_map json_text (dict_get (s_metadata r) key)
  end.

Fixpoint eval_cond (r : scored) (c : sql_cond) : option bool :=
  match c with
  | ILike t kw => option_map (fun text => ilike text kw) (eval_text r t)
  | Or a b => or3 (eval_cond r a) (eval_cond r b)
  | And a b => and3 (eval_cond r a) (eval_cond r b)
  end.

(** A condition holds, in [WHERE] and in [CASE WHEN], when it is true. *)
Definition holds (r : scored) (c : sql_cond) : bool :=
  match eval_cond r c with
  | Some true => true
  | _ => false
  end.

Definition eval_case (r : scored) (e : sql_case) : Q :=
  let (c, x, y) := e in if holds r c then x else y.

(** [e0 + p1 + ... + pn] *)
Definition eval_sum (r : scored) (e0 : Q) (parts : list sql_case) : Q :=
  fold_left (fun acc p => (acc + eval_case r p)%Q) parts e0.

(** [1 - (embedding <=> vec)] on a row of the table. *)
Definition score_row (vec : vector) (d : row) : scored :=
  mkScored (content d) (row_metadata d) (1 - cosine_distance (embedding d) vec)%Q.

Definition final_similarity (kw : str) (kws : list str) (r : scored) : Q :=
  eval_sum r (base_similarity r) (boost_parts kw kws).

Definition semantic (table : list row) (vec : vector) : list scored :=
  map (score_row vec)
    (firstn 50
       (order_by (fun a b => Qle_bool (cosine_distance (embedding a) vec)
                                      (cosine_distance (embedding b) vec))
                 table)).

Definition keyword (table : list row) (vec : vector) (kw : str) (kws : list str)
  : list scored :=
  let count r := eval_sum r 0%Q (keyword_count_expr kw kws) in
  firstn 50
    (order_by (fun a b => Qle_bool (count b) (count a))
       (filter (fun r => holds r (keyword_conditions kw kws))
          (map (score_row vec) table))).

Definition combined (table : list row) (vec : vector) (kw : str) (kws : list str)
  : list scored :=
  distinct_on_content []
    (order_by
       (fun a b =>
          match str_compare (s_content a) (s_content b) with
          | Lt => true
          | Gt => false
          | Eq => Qle_bool (base_similarity b) (base_similarity a)
          end)
       (semantic table vec ++ keyword table vec kw kws)).

(** The rows the statement ranks, before the final [LIMIT]. *)
Definition ranked (table : list row) (s : statement) : list scored :=
  match s with
  | HybridSearch vec kw kws _ =>
      order_by (fun a b => Qle_bool (final_similarity kw kws b)
                                    (final_similarity kw kws a))
        (combined table vec kw kws)
  | VectorSearch vec _ =>
      map (score_row vec)
        (order_by (fun a b => Qle_bool (cosine_distance (embedding a) vec)
                                       (cosine_distance (embedding b) vec))
                  table)
  end.

(** The score in the third column of the result. *)
Definition fused_score (s : statement) (r : scored) : Q :=
  match s with
  | HybridSearch _ kw kws _ => final_similarity kw kws r
  | VectorSearch _ _ => base_similarity r
  end.

Definition limit_of (s : statement) : Z :=
  match s with
  | HybridSearch _ _ _ k => k
  | VectorSearch _ k => k
  end.

Definition run_statement (table : list row) (s : statement) : result (list scored) :=
  limit (limit_of s) (ranked table s).

Definition hit_of (s : statement) (r : scored) : hit :=
  (s_content r, s_metadata r, fused_score s r).

(** [cur.execute(...)] then [cur.fetchall()]. *)
Definition execute (s : statement) : M (list hit) :=
  fun w =>
    match execute_error w with
    | Some e => (Raise e, w)
    | None =>
        match run_statement (documents w) s with
        | Ok rows => (Ok (map (hit_of s) rows), w)
        | Raise e => (Raise e, w)
        end
    end.

(** [get_db_connection()], [conn.rollback()] and [conn.cursor()], which
    stand before the [try]. *)
Definition get_cursor : M unit :=
  fun w =>
    match connect_error w with
    | Some e => (Raise e, w)
    | None => (Ok tt, w)
    end.

Definition document_of_hit (h : hit) : Document :=
  let '(content, metadata, _) := h in mkDocument content metadata.

Definition search_statement (query_embedding : vector) (keywords : list str) (k : Z)
  : statement :=
  match keywords with
  | kw :: kws => HybridSearch query_embedding kw kws k
  | [] => VectorSearch query_embedding k
  end.

Definition search_similar_documents (query : str) (k : Z) : M (list Document) :=
  let expanded_query := expand_query query in
  query_embedding <- embed_query expanded_query default_max_retries ;;
  let keywords := extract_keywords query in
  _ <- get_cursor ;;
  try_except
    (results <- execute (search_statement query_embedding keywords k) ;;
     ret (map document_of_hit results))
    (fun e => ret []).

End Database.

(** ** [format_docs] *)

Definition nl : str := [10%N].

(** [d.get(key, default)] *)
Definition dict_get_default (d : dict) (key : str) (default : json) : json :=
  match dict_get d key with
  | Some v => v
  | None => default
  end.

Definition json_eqb (a b : json) : bool :=
  match a, b with
  | JStr x, JStr y => str_eqb x y
  | JInt x, JInt y => (x =? y)%Z
  | _, _ => false
  end.

(** The body of [for i, doc in enumerate(docs)]. *)
Definition format_doc (i : nat) (doc : Document) : str :=
  let source :=
    dict_get_default (metadata doc) (py "filename")
      (dict_get_default (metadata doc) (py "source") (JStr (py "Unknown"))) in
  let doc_type := dict_get_default (metadata doc) (py "type") (JStr (py "unknown")) in
  let extra_info :=
    if json_eqb doc_type (JStr (py "pdf")) then
      py ", Page " ++ json_text (dict_get_default (metadata doc) (py "page") (JStr (py "N/A")))
    else if json_eqb doc_type (JStr (py "pptx")) then
      py ", Slide " ++ json_text (dict_get_default (metadata doc) (py "slide") (JStr (py "N/A")))
    else if json_eqb doc_type (JStr (py "xlsx")) then
      py ", Sheet: " ++ json_text (dict_get_default (metadata doc) (py "sheet") (JStr (py "N/A")))
    else [] in
  py "[Source " ++ str_of_Z (Z.of_nat i + 1) ++ py ": " ++ json_text source ++
  extra_info ++ py "]" ++ nl ++ page_content doc.

Fixpoint format_from (i : nat) (docs : list Document) : list str :=
  match docs with
  | [] => []
  | doc :: rest => format_doc i doc :: format_from (S i) rest
  end.

Definition format_docs (docs : list Document) : str :=
  join (nl ++ nl ++ py "---" ++ nl ++ nl) (format_from 0 docs).


(** ** The other operations on the table *)

Definition set_documents (w : world) (table : list row) : world :=
  mkWorld (embed_content w) (calls w) (slept w) table
          (connect_error w) (execute_error w).

(** A statement that changes the table, with its [conn.commit()]: it takes
    effect as a whole or, when the database raises, not at all (the
    handlers roll back). *)
Definition execute_update (change : list row -> list row) : M unit :=
  fun w =>
    match execute_error w with
    | Some e => (Raise e, w)
    | None => (Ok tt, set_documents w (change (documents w)))
    end.

(** A statement that reads the table. *)
Definition execute_query {A : Type} (read : list row -> A) : M A :=
  fun w =>
    match execute_error w with
    | Some e => (Raise e, w)
    | None => (Ok (read (documents w)), w)
    end.

(** [zip(documents, embeddings)] turned into the tuples of the [INSERT]. *)
Definition insert_data (documents : list Document) (embeddings : list vector)
  : list row :=
  map (fun p : Document * vector =>
         mkRow (page_content (fst p)) (snd p) (metadata (fst p)))
      (combine documents embeddings).

Definition add_documents_to_vectorstore (documents : list Document) : M Z :=
  match documents with
  | [] => ret 0%Z
  | _ :: _ =>
      let texts := map page_content documents in
      embeddings <- embed_texts texts default_max_retries ;;
      _ <- get_cursor ;;
      try_except
        (_ <- execute_update (fun table => table ++ insert_data documents embeddings) ;;
         ret (Z.of_nat (length documents)))
        (fun e => raise (Exception (py "Database error: " ++ str_of_exn e)))
  end.

Definition get_document_count : M Z :=
  try_except
    (_ <- get_cursor ;;
     execute_query (fun table => Z.of_nat (length table)))
    (fun _ => ret 0%Z).

(** [metadata->>'type'], NULL when the key is absent. *)
Definition type_text (d : row) : option str :=
  option_map json_text (dict_get (row_metadata d) (py "type")).

Definition legacy_types : list str :=
  map py ["pdf"; "docx"; "pptx"; "xlsx"]%string.

(** [jsonb_set(metadata, '{key}', value)] *)
Fixpoint jsonb_set (d : dict) (key : str) (value : json) : dict :=
  match d with
  | [] => [(key, value)]
  | (k, v) :: r =>
      if str_eqb k key then (k, value) :: r else (k, v) :: jsonb_set r key value
  end.

(** The [UPDATE] of [migrate_file_types] on one row. *)
Definition migrate_row (d : row) : row :=
  match type_text d with
  | Some t =>
      if mem t legacy_types
      then mkRow (content d) (embedding d)
                 (jsonb_set (row_metadata d) (py "type") (JStr (py "file")))
      else d
  | None => d
  end.

Definition migrate_file_types : M unit :=
  try_except
    (_ <- get_cursor ;;
     execute_update (map migrate_row))
    (fun _ => ret tt).


(** [metadata->>'type' = doc_type], which is not true of a NULL. *)
Definition has_type (doc_type : str) (d : row) : bool :=
  match type_text d with
  | Some t => str_eqb t doc_type
  | None => false
  end.

(** [DELETE ... WHERE metadata->>'type' = %s], then [cur.rowcount]. *)
Definition delete_by_type (doc_type : str) : M Z :=
  fun w =>
    match execute_error w with
    | Some e => (Raise e, w)
    | None =>
        (Ok (Z.of_nat (length (filter (has_type doc_type) (documents w)))),
         set_documents w (filter (fun d => negb (has_type doc_type d)) (documents w)))
    end.

Definition clear_vectorstore_by_type (doc_type : str) : M Z :=
  try_except
    (_ <- get_cursor ;;
     delete_by_type doc_type)
    (fun e => raise (Exception (py "Failed to clear documents by type: " ++ str_of_exn e))).

(** [COALESCE(metadata->>'type', 'unknown')] *)
Definition doc_type_of (d : row) : str :=
  match type_text d with
  | Some t => t
  | None => py "unknown"
  end.

Definition count_type (table : list row) (t : str) : nat :=
  length (filter (fun d => str_eqb (doc_type_of d) t) table).

(** [GROUP BY doc_type ORDER BY cnt DESC]: one row for every type, the
    larger groups first. *)
Definition counts_by_type (table : list row) : list (str * Z) :=
  order_by (fun a b : str * Z => (snd b <=? snd a)%Z)
    (map (fun t => (t, Z.of_nat (count_type table t)))
         (list_dict_fromkeys (map doc_type_of table))).

(** [{row[0]: row[1] for row in results}] *)
Fixpoint dict_of_rows (rows : list (str * Z)) (d : list (str * Z)) : list (str * Z) :=
  match rows with
  | [] => d
  | (k, v) :: rest =>
      dict_of_rows rest
        (if existsb (fun kv : str * Z => str_eqb (fst kv) k) d
         then map (fun kv : str * Z => if str_eqb (fst kv) k then (k, v) else kv) d
         else d ++ [(k, v)])
  end.

Definition get_document_counts_by_type : M (list (str * Z)) :=
  try_except
    (_ <- get_cursor ;;
     results <- execute_query counts_by_type ;;
     ret (dict_of_rows results []))
    (fun _ => ret []).

(** ** Answering with sources *)

(** What the model returns as [response.content]: a string, or a list of
    blocks, each a text block, a plain string or something else. *)
Inductive block : Type :=
| TextBlock (text : str)
| StrBlock (s : str)
| OtherBlock.

Inductive llm_content : Type :=
| ContentStr (s : str)
| ContentList (blocks : list block).

Inductive message : Type :=
| HumanMessage (content : str)
| AIMessage (content : str).

(** A turn of the chat history: its role and its content. *)
Definition turn : Type := (str * str)%type.

Definition history_messages (chat_history : list turn) : list message :=
  map (fun msg : turn =>
         if str_eqb (fst msg) (py "user") then HumanMessage (snd msg)
         else AIMessage (snd msg))
      chat_history.

Definition text_parts (blocks : list block) : list str :=
  flat_map (fun b => match b with
                     | TextBlock text => [text]
                     | StrBlock s => [s]
                     | OtherBlock => []
                     end) blocks.

Definition no_information : str :=
  py "I couldn't find any relevant information in the knowledge base. Please make sure you've uploaded some documents first.".

Section Answer.

Variable cosine_distance : vector -> vector -> Q.
Variable ilike : str -> str -> bool.

(** [chain.invoke] on the context, the history and the question. *)
Variable invoke : str -> list message -> str -> llm_content.

Definition get_rag_response_with_sources (question : str) (chat_history : list turn)
  : M (str * list Document) :=
  relevant_docs <- search_similar_documents cosine_distance ilike question 12 ;;
  match relevant_docs with
  | [] => ret (no_information, [])
  | _ :: _ =>
      let context := format_docs relevant_docs in
      let response := invoke context (history_messages chat_history) question in
      let content :=
        match response with
        | ContentStr s => s
        | ContentList blocks => join nl (text_parts blocks)
        end in
      ret (content, relevant_docs)
  end.

End Answer.
End RagChain.

(** ** [src/ingest.py]: the documents file ingestion writes *)

Module Ingest.
Import Py RagChain.

(** [d[key] = value] *)
Fixpoint dict_set (d : dict) (key : str) (value : json) : dict :=
  match d with
  | [] => [(key, value)]
  | (k, v) :: r =>
      if str_eqb k key then (k, value) :: r else (k, v) :: dict_set r key value
  end.

(** [for i, page in enumerate(reader.pages)] of [load_pdf], over the text
    [page.extract_text()] gives for each page ([None] when it gives none). *)
Fixpoint load_pdf_pages (file_path : str) (i : nat) (pages : list (option str))
  : list Document :=
  match pages with
  | [] => []
  | page :: rest =>
      match page with
      | Some text =>
          if negb (len text =? 0) && negb (len (strip text) =? 0)
          then mkDocument text
                 [(py "source", JStr file_path);
                  (py "page", JInt (Z.of_nat i + 1));
                  (py "type", JStr (py "file"))]
               :: load_pdf_pages file_path (S i) rest
          else load_pdf_pages file_path (S i) rest
      | None => load_pdf_pages file_path (S i) rest
      end
  end.

Definition load_pdf (file_path : str) (pages : list (option str))
  : result (list Document) :=
  match load_pdf_pages file_path 0 pages with
  | [] => Raise (Exception (py "PDF contains no extractable text"))
  | documents => Ok documents
  end.

(** [load_file] on a PDF upload: [load_pdf] on the temporary copy, then
    [doc.metadata["filename"] = uploaded_file.name] on every document. *)
Definition load_file_pdf (name tmp_path : str) (pages : list (option str))
  : result (list Document) :=
  match load_pdf tmp_path pages with
  | Ok documents =>
      Ok (map (fun doc =>
                 mkDocument (page_content doc)
                   (dict_set (metadata doc) (py "filename") (JStr name)))
              documents)
  | Raise e => Raise e
  end.




(** ** [extract_youtube_video_id] *)

(** A character of the class [0-9A-Za-z_-]. *)
Definition id_char (c : N) : bool :=
  ((48 <=? c) && (c <=? 57) || (65 <=? c) && (c <=? 90) ||
   (97 <=? c) && (c <=? 122) || (c =? 95) || (c =? 45))%N.

(** [n] characters of the class at the start of [s]. *)
Fixpoint take_id (n : nat) (s : str) : option str :=
  match n with
  | O => Some []
  | S n' =>
      match s with
      | c :: r =>
          if id_char c
          then match take_id n' r with
               | Some id => Some (c :: id)
               | None => None
               end
          else None
      | [] => None
      end
  end.

(** A match at the start of [s]: one of the prefixes, tried in order, then
    eleven characters of the class; the group is those eleven. *)
Fixpoint match_here (prefixes : list str) (s : str) : option str :=
  match prefixes with
  | [] => None
  | p :: rest =>
      match (if startswith s p then take_id 11 (skipn (len p) s) else None) with
      | Some id => Some id
      | None => match_here rest s
      end
  end.

(** [re.search]: the match at the leftmost position that has one. *)
Fixpoint re_search (prefixes : list str) (s : str) : option str :=
  match match_here prefixes s with
  | Some id => Some id
  | None =>
      match s with
      | [] => None
      | _ :: r => re_search prefixes r
      end
  end.

(** The three patterns, by the literal alternatives before the group. *)
Definition patterns : list (list str) :=
  [ [py "v="; py "/"]; [py "embed/"]; [py "youtu.be/"] ].

Fixpoint first_match (ps : list (list str)) (url : str) : option str :=
  match ps with
  | [] => None
  | p :: rest =>
      match re_search p url with
      | Some id => Some id
      | None => first_match rest url
      end
  end.

Definition extract_youtube_video_id (url : str) : option str :=
  first_match patterns url.
End Ingest.

(** ** Notions the statements are written with *)

Module Spec.
Import Py RagChain Ingest.

(** Position of the first occurrence of [x] in [l] ([length l] when there
    is none). *)
Fixpoint index_of (x : str) (l : list str) : nat :=
  match l with
  | [] => 0
  | y :: r => if str_eqb x y then 0 else S (index_of x r)
  end.

(** [sub] occurs in [s]. *)
Definition substring (sub s : str) : Prop :=
  exists before after, s = before ++ sub ++ after.

(** The text [expand_query] is meant to append for a query: the synonyms
    of every key occurring in it, each after one space, in dict order. *)
Definition appended_synonyms (query : str) : str :=
  concat (map (fun item : str * str => py " " ++ snd item)
              (filter (fun item : str * str => contains (fst item) query)
                      KR_EN_MAP)).

(** The English synonyms emitted for a base form that is a key of
    [KR_EN_MAP]: those of at least two characters. *)
Definition synonyms (base : str) : list str :=
  match dict_get KR_EN_MAP base with
  | Some en => filter (fun en_word => 2 <=? len en_word) (split en)
  | None => []
  end.

(** [suffix] is a known suffix that [token] ends with and exceeds by at
    least two characters. *)
Definition strippable (token suffix : str) : Prop :=
  In suffix suffixes /\ len suffix + 2 <= len token /\
  exists base, token = base ++ suffix.

(** No character of [t] is white space. *)
Definition spacefree (t : str) : Prop := Forall (fun c => isspace c = false) t.

(** The test of the suffix loop. *)
Definition eligible (token suffix : str) : bool :=
  (len suffix + 1 <? len token) && endswith token suffix.

(** What the extractor is meant to emit for one token: nothing for a token
    that is too short or a stop word; otherwise the base form, obtained by
    removing the longest strippable suffix if there is one, then the token
    itself when it differs, then the synonyms of the base form. *)
Inductive emits (token : str) : list str -> Prop :=
| emits_discarded :
    len token < 2 \/ In token stop_words ->
    emits token []
| emits_whole :
    2 <= len token -> ~ In token stop_words ->
    (forall suffix, ~ strippable token suffix) ->
    emits token (token :: synonyms token)
| emits_stripped (base suffix : str) :
    2 <= len token -> ~ In token stop_words ->
    strippable token suffix -> token = base ++ suffix ->
    (forall suffix', strippable token suffix' -> len suffix' <= len suffix) ->
    base <> token -> 2 <= len base ->
    emits token (base :: token :: synonyms base).

(** The [n]-th call of the remote model fails on [text]. *)
Definition fails (w : world) (n : nat) (text : str) : Prop :=
  exists e, embed_content w n text = Raise e.

(** The sleeps between the attempts on one text that never succeeds:
    one second after the first failure, two after the second, and so on,
    none after the last. *)
Definition backoff (max_retries : Z) : list Z :=
  map (fun attempt => (1 * (attempt + 1))%Z) (range (max_retries - 1)).

(** The remote model and the database are the same in both worlds. *)
Definition same_services (w w' : world) : Prop :=
  embed_content w' = embed_content w /\ documents w' = documents w /\
  connect_error w' = connect_error w /\ execute_error w' = execute_error w.




(** A reading of [ILIKE '%kw%'] for keywords without wildcard characters:
    containment after folding the ASCII capitals. *)
Definition ascii_lower (c : N) : N :=
  if ((65 <=? c) && (c <=? 90))%N then (c + 32)%N else c.

Definition ilike_plain (text kw : str) : bool :=
  contains (map ascii_lower kw) (map ascii_lower text).

(** The cosine distance of vectors of length one, [1 - a . b]. *)
Fixpoint dot (a b : vector) : Q :=
  match a, b with
  | x :: a', y :: b' => (x * y + dot a' b')%Q
  | _, _ => 0%Q
  end.

Definition unit_distance (a b : vector) : Q := (1 - dot a b)%Q.



(** Sample worlds: a remote model that answers every text with one
    vector, or that is out of service; a table with a page uploaded twice
    under two names and one other page. *)
Definition answering (v : vector) : nat -> str -> result vector :=
  fun _ _ => Ok v.

Definition unavailable : nat -> str -> result vector :=
  fun _ _ => Raise (Exception (py "service unavailable")).

Definition file_metadata (name : str) (page : Z) : dict :=
  [(py "source", JStr (py "/tmp/tmp8k2.pdf")); (py "page", JInt page);
   (py "type", JStr (py "file")); (py "filename", JStr name)].

Definition vision_row : row :=
  mkRow (py "Taejae vision statement") [1; 0]%Q (file_metadata (py "vision.pdf") 1).

Definition vision_copy_row : row :=
  mkRow (py "Taejae vision statement") [1; 0]%Q (file_metadata (py "copy.pdf") 1).

Definition campus_row : row :=
  mkRow (py "campus map") [0; 1]%Q (file_metadata (py "campus.pdf") 3).

Definition library_world : world :=
  mkWorld (answering [1; 0]%Q) 0 [] [campus_row; vision_row; vision_copy_row]
          None None.

Definition outage_world : world :=
  mkWorld (answering [1; 0]%Q) 0 [] []
          None (Some (Exception (py "connection lost"))).

Definition silent_world : world :=
  mkWorld unavailable 0 [] [] None None.


(** The sample world with a failing database, after the query has been
    embedded. *)
Definition outage_after : world :=
  mkWorld (answering [1; 0]%Q) 1 [] []
          None (Some (Exception (py "connection lost"))).



(** The first page of an uploaded PDF as [load_file] leaves it. *)
Definition uploaded_page : Document :=
  mkDocument (py "Taejae vision statement") (file_metadata (py "vision.pdf") 1).

(** The rows a statement ranks: the whole table for the pure vector
    search, the merged pools for the hybrid search. *)
Definition candidates (cosine_distance : vector -> vector -> Q)
    (ilike : str -> str -> bool) (table : list row) (s : statement) : list scored :=
  match s with
  | HybridSearch vec kw kws _ => combined cosine_distance ilike table vec kw kws
  | VectorSearch vec _ => map (score_row cosine_distance vec) table
  end.

(** The two pools of the hybrid search, before they are merged. *)
Definition pools (cosine_distance : vector -> vector -> Q)
    (ilike : str -> str -> bool) (table : list row) (vec : vector)
    (kw : str) (kws : list str) : list scored :=
  semantic cosine_distance table vec ++ keyword cosine_distance ilike table vec kw kws.

(** The name a label shows: the file name, else the source, else
    Unknown. *)
Definition source_label (doc : Document) : str :=
  json_text
    (dict_get_default (metadata doc) (py "filename")
       (dict_get_default (metadata doc) (py "source") (JStr (py "Unknown")))).

(** A piece of the context without a locator: the label, a line break and
    the content. *)
Definition plain_chunk (i : nat) (doc : Document) : str :=
  py "[Source " ++ str_of_Z (Z.of_nat i + 1) ++ py ": " ++ source_label doc ++
  py "]" ++ nl ++ page_content doc.

(** The same with the page in the label. *)
Definition page_chunk (i : nat) (doc : Document) (page : json) : str :=
  py "[Source " ++ str_of_Z (Z.of_nat i + 1) ++ py ": " ++ source_label doc ++
  py ", Page " ++ json_text page ++ py "]" ++ nl ++ page_content doc.

Definition separator : str := nl ++ nl ++ py "---" ++ nl ++ nl.

(** The chunks of a list of documents numbered from [i]. *)
Fixpoint plain_chunks (i : nat) (docs : list Document) : list str :=
  match docs with
  | [] => []
  | doc :: rest => plain_chunk i doc :: plain_chunks (S i) rest
  end.

(** The type tags [format_docs] adds a locator for. *)
Definition locating_types : list str := map py ["pdf"; "pptx"; "xlsx"]%string.

(** The document a stored row is read back as. *)
Definition stored_document (d : row) : Document :=
  mkDocument (content d) (row_metadata d).

(** The document [load_pdf] makes of the page at index [i]. *)
Definition pdf_document (file_path : str) (i : nat) (text : str) : Document :=
  mkDocument text
    [(py "source", JStr file_path); (py "page", JInt (Z.of_nat i + 1));
     (py "type", JStr (py "file"))].


(** A page [load_pdf] skips: no text, or white space only. *)
Definition blank (page : option str) : Prop :=
  match page with
  | Some text => strip text = []
  | None => True
  end.

(** The character that ends a string literal of the statement. *)
Definition apostrophe : N := 39%N.

(** A table from before the type tags were unified: a page tagged pdf, a
    news article and a row without a tag. *)
Definition legacy_row : row :=
  mkRow (py "old page") [0; 1]%Q
        [(py "source", JStr (py "/data/old.pdf")); (py "page", JInt 2);
         (py "type", JStr (py "pdf"))].

Definition news_row : row :=
  mkRow (py "headline") [1; 0]%Q
        [(py "source", JStr (py "https://news.example/a"));
         (py "type", JStr (py "news"))].

Definition untagged_row : row :=
  mkRow (py "note") [1; 0]%Q [(py "source", JStr (py "memo"))].

Definition archive_world : world :=
  mkWorld (answering [1; 0]%Q) 0 [] [legacy_row; news_row; untagged_row]
          None None.

(** A language model that always gives the same answer. *)
Definition parrot : str -> list message -> str -> llm_content :=
  fun _ _ _ => ContentStr (py "It depends.").

(** The query of the scenario about the university's vision. *)
Definition scenario_query : str := py "태재대학교 비전이 뭐야?".

End Spec.

(** * Proofs *)

Import Py RagChain Ingest Spec.

(** ** Strings and lists *)

Lemma str_eqb_refl (a : str) : str_eqb a a = true.
Proof.
  induction a as [|x a IH]; simpl; [reflexivity|].
  now rewrite N.eqb_refl, IH.
Qed.

Lemma str_eqb_eq (a b : str) : str_eqb a b = true <-> a = b.
Proof.
  split.
  - revert b; induction a as [|x a IH]; intros [|y b] H; simpl in H;
      try discriminate; [reflexivity|].
    apply andb_true_iff in H as [Hx Hr].
    apply N.eqb_eq in Hx. apply IH in Hr. now subst.
  - intros ->. apply str_eqb_refl.
Qed.

Lemma str_eqb_neq (a b : str) : str_eqb a b = false <-> a <> b.
Proof.
  rewrite <- str_eqb_eq. destruct (str_eqb a b); split; congruence.
Qed.

Lemma str_eqb_sym (a b : str) : str_eqb a b = str_eqb b a.
Proof.
  destruct (str_eqb a b) eqn:E.
  - apply str_eqb_eq in E. subst. symmetry. apply str_eqb_refl.
  - destruct (str_eqb b a) eqn:E'; [|reflexivity].
    apply str_eqb_eq in E'. subst. now rewrite str_eqb_refl in E.
Qed.

Lemma mem_In (x : str) (l : list str) : mem x l = true <-> In x l.
Proof.
  unfold mem. rewrite existsb_exists. split.
  - intros [y [Hy E]]. apply str_eqb_eq in E. now subst.
  - intros H. exists x. split; [assumption|apply str_eqb_refl].
Qed.

Lemma mem_not_In (x : str) (l : list str) : mem x l = false <-> ~ In x l.
Proof.
  rewrite <- mem_In. destruct (mem x l); split; congruence.
Qed.

Lemma startswith_spec (s p : str) :
  startswith s p = true <-> exists after, s = p ++ after.
Proof.
  revert s; induction p as [|x p IH]; intros s; simpl.
  - split; [intros _; now exists s|reflexivity].
  - destruct s as [|y s].
    + split; [discriminate|intros [a Ha]; discriminate].
    + rewrite andb_true_iff, N.eqb_eq, IH. split.
      * intros [-> [a ->]]. now exists a.
      * intros [a Ha]. injection Ha as -> ->. split; [reflexivity|now exists a].
Qed.

Lemma contains_spec (sub s : str) : contains sub s = true <-> substring sub s.
Proof.
  unfold substring. induction s as [|y s IH].
  - simpl. rewrite orb_false_r, startswith_spec. split.
    + intros [a Ha]. exists [], a. exact Ha.
    + intros [b [a Ha]]. destruct b; [now exists a|discriminate].
  - cbn [contains]. rewrite orb_true_iff, startswith_spec, IH. split.
    + intros [[a Ha]|[b [a Ha]]].
      * exists [], a. exact Ha.
      * exists (y :: b), a. simpl. now rewrite Ha.
    + intros [b [a Ha]]. destruct b as [|z b].
      * left. now exists a.
      * right. injection Ha as -> ->. now exists b, a.
Qed.

(** ** [list(dict.fromkeys(l))] *)

Lemma fromkeys_snoc (l : list str) (x : str) :
  list_dict_fromkeys (l ++ [x]) = fromkeys_step (list_dict_fromkeys l) x.
Proof. unfold list_dict_fromkeys. now rewrite fold_left_app. Qed.

Lemma fromkeys_In (l : list str) (x : str) :
  In x (list_dict_fromkeys l) <-> In x l.
Proof.
  induction l as [|y l IH] using rev_ind; [reflexivity|].
  rewrite fromkeys_snoc. unfold fromkeys_step.
  destruct (mem y (list_dict_fromkeys l)) eqn:E.
  - apply mem_In in E. rewrite in_app_iff, IH. simpl. split; [tauto|].
    intros [H|[<-|[]]]; [assumption|now apply IH].
  - rewrite !in_app_iff, IH. reflexivity.
Qed.

Lemma fromkeys_NoDup (l : list str) : NoDup (list_dict_fromkeys l).
Proof.
  induction l as [|y l IH] using rev_ind; [constructor|].
  rewrite fromkeys_snoc. unfold fromkeys_step.
  destruct (mem y (list_dict_fromkeys l)) eqn:E; [assumption|].
  apply mem_not_In in E.
  apply NoDup_rev in IH. rewrite <- (rev_involutive (_ ++ [y])).
  apply NoDup_rev. rewrite rev_app_distr. simpl. constructor; [|assumption].
  now rewrite <- in_rev.
Qed.

Lemma index_of_app_In (x : str) (l r : list str) :
  In x l -> index_of x (l ++ r) = index_of x l.
Proof.
  induction l as [|y l IH]; intros H; [contradiction|].
  simpl. destruct (str_eqb x y) eqn:E; [reflexivity|].
  f_equal. apply IH. destruct H as [->|H]; [|assumption].
  now rewrite str_eqb_refl in E.
Qed.

Lemma index_of_app_not_In (x : str) (l r : list str) :
  ~ In x l -> index_of x (l ++ r) = length l + index_of x r.
Proof.
  induction l as [|y l IH]; intros H; [reflexivity|].
  simpl. destruct (str_eqb x y) eqn:E.
  - apply str_eqb_eq in E. subst. exfalso. apply H. now left.
  - f_equal. apply IH. intros H'. apply H. now right.
Qed.

Lemma index_of_In_lt (x : str) (l : list str) :
  In x l -> index_of x l < length l.
Proof.
  induction l as [|y l IH]; intros H; [contradiction|].
  simpl. destruct (str_eqb x y) eqn:E; [lia|].
  apply -> Nat.succ_lt_mono. apply IH. destruct H as [->|H]; [|assumption].
  now rewrite str_eqb_refl in E.
Qed.

Lemma StronglySorted_snoc {A : Type} (R : A -> A -> Prop) (l : list A) (x : A) :
  StronglySorted R l -> Forall (fun y => R y x) l -> StronglySorted R (l ++ [x]).
Proof.
  induction 1 as [|y l Hl IH Hy]; intros Hx; simpl.
  - repeat constructor.
  - inversion Hx; subst. constructor.
    + now apply IH.
    + apply Forall_app. split; [assumption|now constructor].
Qed.

Lemma StronglySorted_weaken {A : Type} (R R' : A -> A -> Prop) (l : list A) :
  (forall x y, In x l -> In y l -> R x y -> R' x y) ->
  StronglySorted R l -> StronglySorted R' l.
Proof.
  intros H Hs. induction Hs as [|y l Hl IH Hy]; constructor.
  - apply IH. intros a b Ha Hb Hab. apply H; [now right|now right|assumption].
  - rewrite Forall_forall in *. intros z Hz.
    apply H; [now left|now right|now apply Hy].
Qed.

(** The keys come out in the order of their first occurrences. *)
Lemma fromkeys_first_occurrence (l : list str) :
  StronglySorted (fun x y => index_of x l < index_of y l) (list_dict_fromkeys l).
Proof.
  induction l as [|y l IH] using rev_ind; [constructor|].
  rewrite fromkeys_snoc. unfold fromkeys_step.
  assert (Hw : StronglySorted
                 (fun a b => index_of a (l ++ [y]) < index_of b (l ++ [y]))
                 (list_dict_fromkeys l)).
  { eapply StronglySorted_weaken; [|exact IH].
    intros a b Ha Hb Hab.
    apply (proj1 (fromkeys_In _ _)) in Ha. apply (proj1 (fromkeys_In _ _)) in Hb.
    rewrite (index_of_app_In a l [y] Ha), (index_of_app_In b l [y] Hb).
    exact Hab. }
  destruct (mem y (list_dict_fromkeys l)) eqn:E; [exact Hw|].
  apply mem_not_In in E. rewrite fromkeys_In in E.
  apply StronglySorted_snoc; [exact Hw|].
  apply Forall_forall. intros a Ha. apply (proj1 (fromkeys_In _ _)) in Ha.
  rewrite index_of_app_In by assumption.
  rewrite index_of_app_not_In by assumption.
  pose proof (index_of_In_lt a l Ha). lia.
Qed.

(** ** [expand_query] *)

Lemma filter_none {A : Type} (f : A -> bool) (l : list A) :
  (forall x, In x l -> f x = false) -> filter f l = [].
Proof.
  induction l as [|x l IH]; intros H; [reflexivity|].
  simpl. rewrite (H x (or_introl eq_refl)). apply IH.
  intros y Hy. apply H. now right.
Qed.

Lemma expand_fold (query : str) (items : list (str * str)) (expanded : str) :
  fold_left (expand_step query) items expanded =
  expanded ++
  concat (map (fun item : str * str => py " " ++ snd item)
              (filter (fun item : str * str => contains (fst item) query) items)).
Proof.
  revert expanded; induction items as [|[kr en] items IH]; intros expanded; simpl.
  - now rewrite app_nil_r.
  - rewrite IH. destruct (contains kr query); simpl; [|reflexivity].
    now rewrite <- !app_assoc.
Qed.

Lemma KR_EN_MAP_keys_distinct : NoDup (map fst KR_EN_MAP).
Proof.
  assert (H : list_dict_fromkeys (map fst KR_EN_MAP) = map fst KR_EN_MAP)
    by (vm_compute; reflexivity).
  rewrite <- H. apply fromkeys_NoDup.
Qed.

(** C6: [expand_query] returns the query followed, for every key of
    [KR_EN_MAP] that is a substring of the query, by a space and the key's
    whole synonym string, in the order of the dict (whose keys are
    distinct); so the query is a prefix of the result, every matching key's
    synonyms occur in it, and a query no key occurs in comes back
    unchanged. *)
Theorem expand_query_spec (query : str) :
  expand_query query = query ++ appended_synonyms query /\
  (forall kr en, In (kr, en) KR_EN_MAP -> substring kr query ->
     substring (py " " ++ en) (appended_synonyms query)) /\
  ((forall kr en, In (kr, en) KR_EN_MAP -> ~ substring kr query) ->
     expand_query query = query) /\
  NoDup (map fst KR_EN_MAP).
Proof.
  assert (E : expand_query query = query ++ appended_synonyms query)
    by apply expand_fold.
  split; [exact E|]. split; [|split; [|apply KR_EN_MAP_keys_distinct]].
  - intros kr en Hin Hsub. unfold appended_synonyms.
    apply contains_spec in Hsub.
    assert (Hf : In (kr, en)
              (filter (fun item : str * str => contains (fst item) query) KR_EN_MAP))
      by (apply filter_In; split; assumption).
    apply in_split in Hf as [l1 [l2 Hf]]. rewrite Hf.
    rewrite map_app, concat_app.
    exists (concat (map (fun item : str * str => py " " ++ snd item) l1)),
           (concat (map (fun item : str * str => py " " ++ snd item) l2)).
    reflexivity.
  - intros Hno. rewrite E. unfold appended_synonyms.
    replace (filter _ KR_EN_MAP) with (@nil (str * str)); [apply app_nil_r|].
    symmetry. apply filter_none. intros [kr en] Hin. simpl.
    destruct (contains kr query) eqn:C; [|reflexivity].
    exfalso. apply (Hno kr en Hin). now apply contains_spec.
Qed.

(** ** The stable sort *)

Section Sorting.

Context {A : Type} (leb : A -> A -> bool).

Lemma insert_by_perm (x : A) (l : list A) :
  Permutation (x :: l) (insert_by leb x l).
Proof.
  induction l as [|y l IH]; simpl; [apply Permutation_refl|].
  destruct (leb x y); [apply Permutation_refl|].
  eapply perm_trans; [apply perm_swap|]. now apply perm_skip.
Qed.

Lemma sorted_by_perm (l : list A) : Permutation l (sorted_by leb l).
Proof.
  induction l as [|x l IH]; simpl; [constructor|].
  eapply perm_trans; [|apply insert_by_perm]. now apply perm_skip.
Qed.

Lemma sorted_by_In (l : list A) (x : A) : In x (sorted_by leb l) <-> In x l.
Proof.
  split; apply Permutation_in;
    [apply Permutation_sym|]; apply sorted_by_perm.
Qed.


Hypothesis leb_total : forall x y, leb x y = false -> leb y x = true.
Hypothesis leb_trans :
  forall x y z, leb x y = true -> leb y z = true -> leb x z = true.

Lemma insert_by_sorted (x : A) (l : list A) :
  StronglySorted (fun a b => leb a b = true) l ->
  StronglySorted (fun a b => leb a b = true) (insert_by leb x l).
Proof.
  induction 1 as [|y l Hl IH Hy]; simpl.
  - repeat constructor.
  - destruct (leb x y) eqn:E.
    + constructor; [now constructor|].
      constructor; [assumption|].
      eapply Forall_impl; [|exact Hy]. intros z Hz. now apply leb_trans with y.
    + constructor; [assumption|].
      apply Forall_forall. intros z Hz.
      apply (Permutation_in _ (Permutation_sym (insert_by_perm x l))) in Hz.
      destruct Hz as [<-|Hz]; [now apply leb_total|].
      rewrite Forall_forall in Hy. now apply Hy.
Qed.

Lemma sorted_by_sorted (l : list A) :
  StronglySorted (fun a b => leb a b = true) (sorted_by leb l).
Proof.
  induction l as [|x l IH]; simpl; [constructor|].
  now apply insert_by_sorted.
Qed.

End Sorting.

Lemma StronglySorted_app_later {A : Type} (R : A -> A -> Prop)
    (l1 l2 : list A) (x y : A) :
  StronglySorted R (l1 ++ x :: l2) -> In y l2 -> R x y.
Proof.
  induction l1 as [|z l1 IH]; simpl; intros H Hy.
  - inversion H as [|? ? _ Hall]; subst.
    rewrite Forall_forall in Hall. now apply Hall.
  - inversion H; subst. now apply IH.
Qed.

Lemma sorted_suffixes_longest_first :
  StronglySorted (fun a b => len b <= len a) (sorted_by_len_reverse suffixes).
Proof.
  unfold sorted_by_len_reverse.
  eapply StronglySorted_weaken;
    [|apply sorted_by_sorted with (leb := fun x y : str => len y <=? len x)].
  - intros x y _ _ H. now apply Nat.leb_le in H.
  - intros x y H. apply Nat.leb_gt in H. apply Nat.leb_le. lia.
  - intros x y z H1 H2. apply Nat.leb_le in H1, H2. apply Nat.leb_le. lia.
Qed.

(** ** Suffix stripping *)

Lemma endswith_spec (s suffix : str) :
  endswith s suffix = true <-> exists base, s = base ++ suffix.
Proof.
  unfold endswith, len. rewrite andb_true_iff, Nat.leb_le, str_eqb_eq. split.
  - intros [_ H]. exists (firstn (length s - length suffix) s).
    rewrite <- (firstn_skipn (length s - length suffix) s) at 1.
    now rewrite H.
  - intros [base ->]. rewrite length_app. split; [lia|].
    replace (length base + length suffix - length suffix) with (length base)
      by lia.
    now rewrite skipn_app, skipn_all, Nat.sub_diag.
Qed.

Lemma slice_to_neg_app (base suffix : str) :
  1 <= len suffix -> slice_to_neg (base ++ suffix) (len suffix) = base.
Proof.
  unfold slice_to_neg, len. intros H.
  destruct (length suffix) as [|n] eqn:E; [lia|].
  rewrite length_app, E.
  replace (length base + S n - S n) with (length base + 0) by lia.
  rewrite firstn_app_2. simpl. apply app_nil_r.
Qed.

Lemma eligible_spec (token suffix : str) :
  eligible token suffix = true <->
  len suffix + 2 <= len token /\ exists base, token = base ++ suffix.
Proof.
  unfold eligible. rewrite andb_true_iff, Nat.ltb_lt, endswith_spec.
  split; intros [H1 H2]; (split; [lia|assumption]).
Qed.

Lemma strip_first_suffix_cases (token : str) (sufs : list str) :
  (strip_first_suffix token sufs = token /\
   forall s, In s sufs -> eligible token s = false) \/
  (exists l1 s l2,
     sufs = l1 ++ s :: l2 /\
     (forall s', In s' l1 -> eligible token s' = false) /\
     eligible token s = true /\
     strip_first_suffix token sufs = slice_to_neg token (len s)).
Proof.
  induction sufs as [|s sufs IH]; simpl.
  - left. split; [reflexivity|]. intros s [].
  - fold (eligible token s). destruct (eligible token s) eqn:E.
    + right. exists [], s, sufs. repeat split; try assumption. intros s' [].
    + destruct IH as [[H1 H2]|[l1 [s0 [l2 [H1 [H2 [H3 H4]]]]]]].
      * left. split; [assumption|]. intros s' [<-|Hs']; auto.
      * right. exists (s :: l1), s0, l2. subst sufs. repeat split; try assumption.
        intros s' [<-|Hs']; auto.
Qed.

Lemma suffixes_not_empty (suffix : str) : In suffix suffixes -> 1 <= len suffix.
Proof.
  assert (H : forallb (fun s => 1 <=? len s) suffixes = true)
    by (vm_compute; reflexivity).
  rewrite forallb_forall in H. intros Hin. apply Nat.leb_le. now apply H.
Qed.

Lemma In_sorted_suffixes (suffix : str) :
  In suffix (sorted_by_len_reverse suffixes) <-> In suffix suffixes.
Proof. apply sorted_by_In. Qed.

(** The loop over the suffixes leaves a token of at least two characters
    with at least two characters: the fallback to the token is not taken. *)
Lemma strip_first_suffix_length (token : str) :
  2 <= len token ->
  2 <= len (strip_first_suffix token (sorted_by_len_reverse suffixes)).
Proof.
  intros Ht.
  destruct (strip_first_suffix_cases token (sorted_by_len_reverse suffixes))
    as [[-> _]|[l1 [s [l2 [Hs [_ [He ->]]]]]]]; [assumption|].
  apply eligible_spec in He as [Hlen [base ->]].
  rewrite slice_to_neg_app.
  - unfold len in *. rewrite length_app in Hlen. lia.
  - apply suffixes_not_empty. apply (proj1 (In_sorted_suffixes s)).
    rewrite Hs. apply in_elt.
Qed.

(** ** One iteration of the token loop *)

Lemma append_en_word_fold (words keywords : list str) :
  fold_left append_en_word words keywords =
  keywords ++ filter (fun en_word => 2 <=? len en_word) words.
Proof.
  revert keywords; induction words as [|w words IH]; intros keywords;
    cbn [fold_left filter].
  - now rewrite app_nil_r.
  - rewrite IH. unfold append_en_word.
    destruct (2 <=? len w); [|reflexivity]. now rewrite <- app_assoc.
Qed.

Lemma synonyms_fold (base : str) (keywords : list str) :
  match dict_get KR_EN_MAP base with
  | Some en => fold_left append_en_word (split en) keywords
  | None => keywords
  end = keywords ++ synonyms base.
Proof.
  unfold synonyms. destruct (dict_get KR_EN_MAP base).
  - apply append_en_word_fold.
  - now rewrite app_nil_r.
Qed.

Lemma extract_step_acc (keywords : list str) (token : str) :
  extract_step keywords token = keywords ++ extract_step [] token.
Proof.
  unfold extract_step.
  destruct (_ || _); [now rewrite app_nil_r|].
  set (stripped := strip_first_suffix _ _).
  set (base := if 2 <=? len stripped then stripped else strip token).
  destruct (negb (str_eqb base (strip token)));
    destruct (dict_get KR_EN_MAP base);
    rewrite ?append_en_word_fold; cbn [app]; now rewrite <- ?app_assoc.
Qed.

Lemma extract_fold (tokens keywords : list str) :
  fold_left extract_step tokens keywords =
  keywords ++ concat (map (extract_step []) tokens).
Proof.
  revert keywords; induction tokens as [|t tokens IH]; intros keywords; simpl.
  - now rewrite app_nil_r.
  - rewrite IH, extract_step_acc. now rewrite <- app_assoc.
Qed.

Lemma extract_step_emits (token : str) :
  strip token = token -> emits token (extract_step [] token).
Proof.
  intros Hstrip. unfold extract_step. rewrite Hstrip.
  destruct (_ || _) eqn:Hskip.
  { apply emits_discarded. apply orb_true_iff in Hskip as [H|H].
    - left. now apply Nat.ltb_lt.
    - right. now apply mem_In. }
  apply orb_false_iff in Hskip as [Hlen Hstop].
  apply Nat.ltb_ge in Hlen. apply mem_not_In in Hstop.
  pose proof (strip_first_suffix_length token Hlen) as Hbase.
  apply Nat.leb_le in Hbase. rewrite Hbase.
  destruct (strip_first_suffix_cases token (sorted_by_len_reverse suffixes))
    as [[Heq Hnone]|[l1 [s [l2 [Hs [Hnot [He Heq]]]]]]].
  - rewrite Heq, str_eqb_refl. cbn [negb app].
    rewrite synonyms_fold. cbn [app].
    apply emits_whole; try assumption.
    intros suffix [Hin Hrest]. apply (proj2 (In_sorted_suffixes suffix)) in Hin.
    apply Hnone in Hin. apply eligible_spec in Hrest. congruence.
  - assert (Hin : In s suffixes)
      by (apply (proj1 (In_sorted_suffixes s)); rewrite Hs; apply in_elt).
    pose proof (suffixes_not_empty s Hin) as Hne.
    pose proof He as He'. apply eligible_spec in He' as [Hlen' [base Htok]].
    assert (Hsl : slice_to_neg token (len s) = base)
      by (rewrite Htok; now apply slice_to_neg_app).
    rewrite Heq, Hsl in *.
    assert (Hneq : base <> token).
    { intros E. apply (f_equal (@length N)) in Htok.
      rewrite length_app, E in Htok. unfold len in Hne. lia. }
    apply str_eqb_neq in Hneq as Hb. rewrite Hb. cbn [negb app].
    rewrite synonyms_fold. cbn [app].
    apply emits_stripped with (suffix := s); try assumption.
    + split; [assumption|]. split; [assumption|]. now exists base.
    + intros s' [Hin' Hrest']. apply eligible_spec in Hrest'.
      apply (proj2 (In_sorted_suffixes s')) in Hin'. rewrite Hs in Hin'.
      apply in_app_or in Hin' as [Hin'|[<-|Hin']].
      * apply Hnot in Hin'. congruence.
      * apply le_n.
      * pose proof sorted_suffixes_longest_first as Hsorted.
        rewrite Hs in Hsorted.
        exact (@StronglySorted_app_later str (fun a b : str => len b <= len a)
                 l1 l2 s s' Hsorted Hin').
    + now apply Nat.leb_le.
Qed.

(** ** Tokens *)

Lemma flush_In (cur t : str) : In t (flush cur) -> t = cur /\ t <> [].
Proof.
  destruct cur as [|c cur]; simpl; [intros []|].
  intros [<-|[]]. split; [reflexivity|discriminate].
Qed.

Lemma split_from_tokens (s cur t : str) :
  spacefree cur -> In t (split_from s cur) ->
  t <> [] /\ spacefree t /\ forall c, In c t -> In c cur \/ In c s.
Proof.
  unfold spacefree. revert cur; induction s as [|c s IH]; intros cur Hcur Ht.
  - apply flush_In in Ht as [-> Hne]. repeat split; auto.
  - cbn [split_from] in Ht. destruct (isspace c) eqn:Ec.
    + apply in_app_or in Ht as [Ht|Ht].
      * apply flush_In in Ht as [-> Hne]. repeat split; auto.
      * destruct (IH [] (Forall_nil _) Ht) as [H1 [H2 H3]].
        repeat split; auto. intros c' Hc'.
        destruct (H3 c' Hc') as [[]|H]. right. now right.
    + assert (Hcur' : Forall (fun c => isspace c = false) (cur ++ [c]))
        by (apply Forall_app; split; [assumption|now constructor]).
      destruct (IH (cur ++ [c]) Hcur' Ht) as [H1 [H2 H3]].
      repeat split; auto. intros c' Hc'.
      destruct (H3 c' Hc') as [H|H]; [|right; now right].
      apply in_app_or in H as [H|[<-|[]]]; [now left|right; now left].
Qed.

Lemma split_tokens (s t : str) :
  In t (split s) -> t <> [] /\ spacefree t /\ forall c, In c t -> In c s.
Proof.
  intros Ht. destruct (split_from_tokens s [] t (Forall_nil _) Ht) as [H1 [H2 H3]].
  repeat split; auto. intros c Hc. destruct (H3 c Hc) as [[]|H]. exact H.
Qed.

Lemma lstrip_spacefree (t : str) : spacefree t -> lstrip t = t.
Proof.
  intros H. destruct H as [|c t Hc Ht]; [reflexivity|].
  simpl. now rewrite Hc.
Qed.

Lemma strip_spacefree (t : str) : spacefree t -> strip t = t.
Proof.
  intros H. unfold strip. rewrite (lstrip_spacefree t H).
  rewrite lstrip_spacefree; [apply rev_involutive|].
  now apply Forall_rev.
Qed.

(** ** [extract_keywords] *)

Lemma extract_keywords_unfold (query : str) :
  extract_keywords query =
  list_dict_fromkeys
    (concat (map (extract_step []) (split (re_sub_punctuation query)))).
Proof. unfold extract_keywords. now rewrite extract_fold. Qed.

Lemma tokens_emit (query : str) :
  Forall2 emits (split (re_sub_punctuation query))
          (map (extract_step []) (split (re_sub_punctuation query))).
Proof.
  assert (H : forall t, In t (split (re_sub_punctuation query)) -> strip t = t).
  { intros t Ht. apply strip_spacefree. now apply split_tokens in Ht. }
  induction (split (re_sub_punctuation query)) as [|t tokens IH];
    cbn [map]; constructor.
  - apply extract_step_emits. apply H. now left.
  - apply IH. intros t' Ht'. apply H. now right.
Qed.

(** C5: the tokens are the white-space separated pieces of the query with
    its punctuation blanked.  A token of fewer than two characters or in
    the stop-word set emits nothing; any other token emits its base form,
    which is the token without the longest suffix of the list that it ends
    with and exceeds by at least two characters (one suffix at most, the
    token itself when there is none), then the token when the base differs
    from it, then the base's synonyms.  The result holds what the tokens
    emit, without duplicates and in the order of first occurrence. *)
Theorem extract_keywords_spec (query : str) :
  exists emitted : list (list str),
    Forall2 emits (split (re_sub_punctuation query)) emitted /\
    NoDup (extract_keywords query) /\
    (forall x, In x (extract_keywords query) <-> In x (concat emitted)) /\
    StronglySorted
      (fun x y => index_of x (concat emitted) < index_of y (concat emitted))
      (extract_keywords query).
Proof.
  exists (map (extract_step []) (split (re_sub_punctuation query))).
  rewrite extract_keywords_unfold.
  split; [apply tokens_emit|]. split; [apply fromkeys_NoDup|].
  split; [intros x; apply fromkeys_In|apply fromkeys_first_occurrence].
Qed.

Lemma synonyms_length (base x : str) : In x (synonyms base) -> 2 <= len x.
Proof.
  unfold synonyms. destruct (dict_get KR_EN_MAP base); [|intros []].
  intros H. apply filter_In in H as [_ H]. now apply Nat.leb_le.
Qed.

Lemma emits_length (token : str) (out : list str) (x : str) :
  emits token out -> In x out -> 2 <= len x.
Proof.
  intros He Hx. destruct He as [H|H1 H2 H3|base suffix H1 H2 H3 H4 H5 H6 H7].
  - destruct Hx.
  - destruct Hx as [<-|Hx]; [assumption|]. now apply synonyms_length in Hx.
  - destruct Hx as [<-|[<-|Hx]]; try assumption. now apply synonyms_length in Hx.
Qed.

Lemma emits_token (token : str) (out : list str) :
  emits token out -> out <> [] -> In token out.
Proof.
  intros He Hne. destruct He; [congruence|now left|right; now left].
Qed.

Lemma Forall2_concat_In {A B : Type} (R : A -> list B -> Prop)
    (l : list A) (ll : list (list B)) (x : B) :
  Forall2 R l ll -> In x (concat ll) ->
  exists a out, In a l /\ In out ll /\ R a out /\ In x out.
Proof.
  induction 1 as [|a out l ll Hr Hf IH]; simpl; [intros []|].
  intros H. apply in_app_or in H as [H|H].
  - exists a, out. repeat split; auto.
  - destruct (IH H) as [a' [out' [H1 [H2 [H3 H4]]]]].
    exists a', out'. repeat split; auto.
Qed.

(** C10: every keyword [extract_keywords] returns has at least two
    characters, and the suffix loop leaves every token that reaches it
    (at least two characters) with at least two characters, so the test
    [len(stripped) >= 2] holds and the base form is never replaced by the
    token. *)
Theorem extract_keywords_min_length (query x : str) :
  In x (extract_keywords query) ->
  2 <= len x /\
  forall token, 2 <= len token ->
    (2 <=? len (strip_first_suffix token (sorted_by_len_reverse suffixes))) = true.
Proof.
  intros Hx. split.
  - rewrite extract_keywords_unfold in Hx.
    apply (proj1 (fromkeys_In _ _)) in Hx.
    destruct (Forall2_concat_In _ _ _ _ (tokens_emit query) Hx)
      as [t [out [_ [_ [He Hin]]]]].
    exact (emits_length t out x He Hin).
  - intros token Ht. apply Nat.leb_le. now apply strip_first_suffix_length.
Qed.

(** Membership in a list of strings that is known in full is settled by
    evaluating [mem]. *)
Ltac in_by_computation :=
  match goal with
  | |- In ?x ?l => refine (proj1 (mem_In x l) _); vm_compute; reflexivity
  end.

Ltac not_in_by_computation :=
  match goal with
  | |- ~ In ?x ?l => refine (proj1 (mem_not_In x l) _); vm_compute; reflexivity
  | |- In ?x ?l -> False =>
      refine (proj1 (mem_not_In x l) _); vm_compute; reflexivity
  end.

(** ** Re-running the extraction on its own output *)

Lemma split_from_app_space (a b cur : str) (sp : N) :
  isspace sp = true ->
  split_from (a ++ sp :: b) cur = split_from a cur ++ split_from b [].
Proof.
  intros Hsp. revert cur; induction a as [|c a IH]; intros cur.
  - cbn [app split_from]. now rewrite Hsp.
  - cbn [app split_from]. destruct (isspace c).
    + now rewrite IH, app_assoc.
    + apply IH.
Qed.

Lemma split_from_spacefree (t cur : str) :
  spacefree t -> split_from t cur = flush (cur ++ t).
Proof.
  intros H. revert cur; induction H as [|c t Hc Ht IH]; intros cur.
  - now rewrite app_nil_r.
  - cbn [split_from]. rewrite Hc, IH, <- app_assoc. reflexivity.
Qed.

Lemma split_token (t : str) : spacefree t -> t <> [] -> split t = [t].
Proof.
  intros H Hne. unfold split. rewrite split_from_spacefree by assumption.
  destruct t; [congruence|reflexivity].
Qed.

Lemma split_join (l : list str) :
  split (join [space] l) = concat (map split l).
Proof.
  induction l as [|x l IH]; [reflexivity|].
  destruct l as [|y l].
  - cbn [join map concat]. now rewrite app_nil_r.
  - change (join [space] (x :: y :: l)) with (x ++ space :: join [space] (y :: l)).
    unfold split at 1. rewrite split_from_app_space by reflexivity.
    fold (split x). fold (split (join [space] (y :: l))). now rewrite IH.
Qed.

Lemma re_sub_join (l : list str) :
  re_sub_punctuation (join [space] l) = join [space] (map re_sub_punctuation l).
Proof.
  induction l as [|x l IH]; [reflexivity|].
  destruct l as [|y l]; [reflexivity|].
  change (join [space] (x :: y :: l)) with (x ++ space :: join [space] (y :: l)).
  unfold re_sub_punctuation at 1. rewrite map_app. cbn [map].
  fold (re_sub_punctuation x). fold (re_sub_punctuation (join [space] (y :: l))).
  rewrite IH. reflexivity.
Qed.

Lemma re_sub_no_punctuation (query : str) (c : N) :
  In c (re_sub_punctuation query) -> existsb (N.eqb c) punctuation = false.
Proof.
  unfold re_sub_punctuation. intros H. apply in_map_iff in H as [c0 [Hc _]].
  destruct (existsb (N.eqb c0) punctuation) eqn:E; subst c;
    [reflexivity|assumption].
Qed.

Lemma re_sub_fixed (t : str) :
  (forall c, In c t -> existsb (N.eqb c) punctuation = false) ->
  re_sub_punctuation t = t.
Proof.
  intros H. unfold re_sub_punctuation. rewrite <- (map_id t) at 2.
  apply map_ext_in. intros c Hc. now rewrite (H c Hc).
Qed.

Lemma In_extract_keywords (query x : str) :
  In x (extract_keywords query) <->
  exists t, In t (split (re_sub_punctuation query)) /\ In x (extract_step [] t).
Proof.
  rewrite extract_keywords_unfold, fromkeys_In, in_concat. split.
  - intros [out [Hout Hx]]. apply in_map_iff in Hout as [t [<- Ht]]. now exists t.
  - intros [t [Ht Hx]]. exists (extract_step [] t). split; [|assumption].
    now apply in_map.
Qed.

(** C7, as amended: every keyword of a query is found again by extracting
    from the keywords joined with single spaces. *)
Theorem extract_keywords_found_again (query x : str) :
  In x (extract_keywords query) ->
  In x (extract_keywords (join [space] (extract_keywords query))).
Proof.
  intros Hx. apply In_extract_keywords in Hx as Hx'.
  destruct Hx' as [t [Ht Hxt]].
  apply In_extract_keywords. exists t. split; [|assumption].
  destruct (split_tokens _ _ Ht) as [Hne [Hsf Hchars]].
  assert (Hkw : In t (extract_keywords query)).
  { apply In_extract_keywords. exists t. split; [assumption|].
    apply emits_token.
    - apply extract_step_emits. now apply strip_spacefree.
    - intros E. rewrite E in Hxt. destruct Hxt. }
  rewrite re_sub_join, split_join, in_concat.
  exists [t]. split; [|now left].
  apply in_map_iff. exists t. split.
  - now apply split_token.
  - apply in_map_iff. exists t. split; [|assumption].
    apply re_sub_fixed. intros c Hc.
    apply (re_sub_no_punctuation query). now apply Hchars.
Qed.

Lemma extract_keywords_found_again_witness :
  In (py "비전") (extract_keywords (join [space] (extract_keywords (py "비전이 뭐야?")))).
Proof.
  apply (extract_keywords_found_again (py "비전이 뭐야?") (py "비전")).
  in_by_computation.
Defined.

(** C7 as stated fails: extracting again from the keywords of the query
    naming the university yields a keyword the query did not have, the
    first piece of the synonym with dots. *)
Lemma reextraction_adds_keywords :
  ~ (forall x,
       In x (extract_keywords (join [space] (extract_keywords (py "태재대학교")))) ->
       In x (extract_keywords (py "태재대학교"))).
Proof.
  intros H. specialize (H (py "taejae")).
  assert (Hin : In (py "taejae")
            (extract_keywords (join [space] (extract_keywords (py "태재대학교")))))
    by in_by_computation.
  apply H in Hin. revert Hin. not_in_by_computation.
Qed.

(** ** The scenario of the university's vision *)

(** C4, as amended: for the scenario query the extractor returns exactly
    the university's name with its synonyms, the word for vision without
    and with its particle and its synonyms, and the last word of the
    question unchanged; none of them is a stop word, and the short form of
    the university's name is not among them.  The expander appends the
    synonyms of the three keys occurring in the query. *)
Theorem scenario_keywords_and_expansion :
  extract_keywords scenario_query =
    map py ["태재대학교"; "Taejae"; "TAEJAE"; "taejae.ac.kr";
            "비전"; "비전이"; "vision"; "visions"; "뭐야"]%string /\
  forallb (fun x => negb (mem x stop_words)) (extract_keywords scenario_query) = true /\
  mem (py "태재") (extract_keywords scenario_query) = false /\
  expand_query scenario_query =
    scenario_query ++ py " Taejae TAEJAE taejae.ac.kr" ++
    py " Taejae TAEJAE taejae" ++ py " vision visions".
Proof. vm_compute. repeat split; reflexivity. Qed.

(** C4 as stated fails: the keyword list lacks the short form of the
    university's name. *)
Lemma scenario_lacks_short_name :
  ~ (In (py "태재") (extract_keywords scenario_query) /\
     In (py "태재대학교") (extract_keywords scenario_query) /\
     In (py "비전") (extract_keywords scenario_query) /\
     (forall x, In x (extract_keywords scenario_query) -> ~ In x stop_words) /\
     substring (py " Taejae TAEJAE taejae.ac.kr") (expand_query scenario_query) /\
     substring (py " vision visions") (expand_query scenario_query)).
Proof.
  intros [H _]. revert H. not_in_by_computation.
Qed.

(** ** [embed_texts] *)

Lemma same_services_refl (w : world) : same_services w w.
Proof. repeat split. Qed.

Lemma same_services_trans (w1 w2 w3 : world) :
  same_services w1 w2 -> same_services w2 w3 -> same_services w1 w3.
Proof.
  intros [A1 [A2 [A3 A4]]] [B1 [B2 [B3 B4]]].
  repeat split; congruence.
Qed.

Lemma map_seq_snoc (f : nat -> Z) (a n : nat) :
  map f (seq a (S n)) = map f (seq a n) ++ [f (a + n)].
Proof. now rewrite seq_S, map_app. Qed.

(** The attempts numbered [a], [a + 1], ... up to [max_retries - 1] on one
    text: either one of them succeeds after the earlier ones failed, or all
    fail and the error of the last one is wrapped and raised, with one sleep
    of [attempt + 1] seconds after every failure but the last. *)
Lemma embed_attempts_spec (text : str) (max_retries : Z) (n : nat) :
  forall (a : nat) (w : world),
    Z.of_nat (a + n) = max_retries ->
    match embed_attempts text max_retries (map Z.of_nat (seq a n)) w with
    | (Ok (Some v), w') =>
        exists j, j < n /\
          embed_content w (calls w + j) text = Ok v /\
          (forall i, i < j -> fails w (calls w + i) text) /\
          calls w' = calls w + S j /\
          slept w' = slept w ++ map (fun i => (1 * (Z.of_nat i + 1))%Z) (seq a j) /\
          same_services w w'
    | (Ok None, w') => n = 0 /\ w' = w
    | (Raise e, w') =>
        exists m e_last, n = S m /\
          (forall i, i < n -> fails w (calls w + i) text) /\
          embed_content w (calls w + m) text = Raise e_last /\
          e = embedding_failed max_retries e_last /\
          calls w' = calls w + n /\
          slept w' = slept w ++ map (fun i => (1 * (Z.of_nat i + 1))%Z) (seq a m) /\
          same_services w w'
    end.
Proof.
  induction n as [|n IH]; intros a w Hmr.
  - simpl. split; reflexivity.
  - cbn [seq map embed_attempts]. unfold bind at 1, call_embed_content.
    destruct (embed_content w (calls w) text) as [v|e] eqn:E.
    + unfold ret. exists 0. rewrite Nat.add_0_r. cbn [calls slept seq map].
      rewrite app_nil_r. repeat split; try lia; try assumption.
    + destruct (Z.of_nat a <? max_retries - 1)%Z eqn:Elt.
      * apply Z.ltb_lt in Elt.
        unfold bind at 1, sleep.
        cbn [embed_content calls slept documents connect_error execute_error].
        match goal with
        | |- context [embed_attempts _ _ _ ?w2] => set (w2' := w2)
        end.
        assert (Hmr' : Z.of_nat (S a + n) = max_retries) by lia.
        specialize (IH (S a) w2' Hmr').
        assert (Hsame : same_services w w2') by (repeat split).
        assert (Hfirst : fails w (calls w + 0) text)
          by (exists e; now rewrite Nat.add_0_r).
        destruct (embed_attempts text max_retries (map Z.of_nat (seq (S a) n)) w2')
          as [[[v|]|e'] w'].
        -- destruct IH as [j [Hj [Hv [Hf [Hc [Hs Hsv]]]]]].
           subst w2'. cbn [calls slept embed_content] in *.
           exists (S j). repeat split.
           ++ lia.
           ++ now rewrite <- Hv, <- Nat.add_succ_comm.
           ++ intros [|i] Hi; [exact Hfirst|].
              destruct (Hf i ltac:(lia)) as [e0 He0].
              exists e0. now rewrite <- He0, <- Nat.add_succ_comm.
           ++ lia.
           ++ rewrite Hs, <- app_assoc. reflexivity.
           ++ apply Hsv.
           ++ apply Hsv.
           ++ apply Hsv.
           ++ apply Hsv.
        -- destruct IH as [Hn _]. subst n. lia.
        -- destruct IH as [m [e_last [Hn [Hf [Hl [He [Hc [Hs Hsv]]]]]]]].
           subst w2'. cbn [calls slept embed_content] in *.
           exists (S m), e_last. repeat split.
           ++ now rewrite Hn.
           ++ intros [|i] Hi; [exact Hfirst|].
              destruct (Hf i ltac:(lia)) as [e0 He0].
              exists e0. now rewrite <- He0, <- Nat.add_succ_comm.
           ++ now rewrite <- Hl, <- Nat.add_succ_comm.
           ++ exact He.
           ++ lia.
           ++ rewrite Hs, <- app_assoc. reflexivity.
           ++ apply Hsv.
           ++ apply Hsv.
           ++ apply Hsv.
           ++ apply Hsv.
      * apply Z.ltb_ge in Elt. assert (n = 0) by lia. subst n.
        unfold raise. exists 0, e. cbn [calls slept seq map].
        rewrite Nat.add_0_r, app_nil_r. repeat split; try lia; try assumption.
        intros i Hi. assert (i = 0) by lia. subst i.
        exists e. now rewrite Nat.add_0_r.
Qed.

Lemma embed_texts_from_spec (max_retries : Z) (texts : list str) :
  (1 <= max_retries)%Z ->
  forall (all_embeddings : list vector) (w : world),
    match embed_texts_from texts max_retries all_embeddings w with
    | (Ok vectors, w') =>
        exists new, vectors = all_embeddings ++ new /\
          Forall2 (fun text v => exists n, embed_content w n text = Ok v)
                  texts new /\
          same_services w w'
    | (Raise e, w') =>
        exists text first e_last, In text texts /\
          (forall i, i < Z.to_nat max_retries -> fails w (first + i) text) /\
          embed_content w (first + (Z.to_nat max_retries - 1)) text = Raise e_last /\
          e = embedding_failed max_retries e_last /\
          (exists earlier, slept w' = earlier ++ backoff max_retries) /\
          same_services w w'
    end.
Proof.
  intros Hmr. induction texts as [|text rest IH]; intros acc w.
  - simpl. exists []. rewrite app_nil_r. repeat split. constructor.
  - cbn [embed_texts_from]. unfold bind at 1, range.
    pose proof (embed_attempts_spec text max_retries (Z.to_nat max_retries) 0 w
                  ltac:(cbn [Nat.add]; lia)) as Ha.
    destruct (embed_attempts text max_retries
                (map Z.of_nat (seq 0 (Z.to_nat max_retries))) w)
      as [[[v|]|e] w1].
    + destruct Ha as [j [Hj [Hv [_ [_ [_ Hsame]]]]]].
      specialize (IH (acc ++ [v]) w1).
      destruct (embed_texts_from rest max_retries (acc ++ [v]) w1)
        as [[vectors|e] w'].
      * destruct IH as [new [Hvs [Hall Hs']]].
        exists (v :: new). split; [now rewrite Hvs, <- app_assoc|].
        split; [|now apply same_services_trans with w1].
        constructor; [now exists (calls w + j)|].
        eapply Forall2_impl; [|exact Hall].
        intros t v' [n Hn]. exists n. destruct Hsame as [Hec _].
        now rewrite <- Hec.
      * destruct IH as [t [first [e_last [Hin [Hf [Hl [He [Hsl Hs']]]]]]]].
        destruct Hsame as [Hec Hrest].
        exists t, first, e_last. repeat split; try assumption.
        -- now right.
        -- intros i Hi. destruct (Hf i Hi) as [e0 He0]. exists e0.
           now rewrite <- Hec.
        -- now rewrite <- Hec.
        -- destruct Hs' as [A _]. congruence.
        -- destruct Hs' as [_ [A _]]. destruct Hrest as [B _]. congruence.
        -- destruct Hs' as [_ [_ [A _]]]. destruct Hrest as [_ [B _]]. congruence.
        -- destruct Hs' as [_ [_ [_ A]]]. destruct Hrest as [_ [_ B]]. congruence.
    + destruct Ha as [Hn _]. lia.
    + destruct Ha as [m [e_last [Hn [Hf [Hl [He [_ [Hs Hsame]]]]]]]].
      exists text, (calls w), e_last. repeat split; try apply Hsame.
      * now left.
      * exact Hf.
      * rewrite Hn. now replace (S m - 1) with m by lia.
      * exact He.
      * exists (slept w). rewrite Hs. f_equal. unfold backoff, range.
        replace (Z.to_nat (max_retries - 1)) with m by lia.
        now rewrite map_map.
Qed.

(** C8: with the retry bound of the code, [embed_texts] either returns one
    vector for every text, in the order of the texts, each the answer of
    the remote model to that text; or it raises, after five calls in a row
    on one of the texts have failed, with sleeps of one, two, three and
    four seconds between them, an exception whose message ends with that
    of the fifth failure.  In that case no list is returned at all. *)
Theorem embed_texts_all_or_error (texts : list str) (w : world) :
  match embed_texts texts default_max_retries w with
  | (Ok vectors, w') =>
      length vectors = length texts /\
      Forall2 (fun text v => exists n, embed_content w n text = Ok v)
              texts vectors
  | (Raise e, w') =>
      exists text first e_last,
        In text texts /\
        (forall i, i < 5 -> fails w (first + i) text) /\
        embed_content w (first + 4) text = Raise e_last /\
        e = Exception (py "Embedding failed after 5 retries: " ++ str_of_exn e_last) /\
        exists earlier, slept w' = earlier ++ [1; 2; 3; 4]%Z
  end.
Proof.
  unfold embed_texts.
  pose proof (embed_texts_from_spec default_max_retries texts ltac:(vm_compute; discriminate) [] w)
    as H.
  destruct (embed_texts_from texts default_max_retries [] w) as [[vectors|e] w'].
  - destruct H as [new [-> [Hall _]]]. cbn [app]. split; [|assumption].
    symmetry. eapply Forall2_length, Hall.
  - destruct H as [text [first [e_last [Hin [Hf [Hl [He [Hs _]]]]]]]].
    exists text, first, e_last. repeat split; assumption.
Qed.

(** ** The conditions and the boost of the hybrid statement *)

Section Boost.

Variable ilike : str -> str -> bool.











End Boost.


(** ** Lists cut by [LIMIT] and ordered by [ORDER BY] *)




Lemma StronglySorted_map {A B : Type} (f : A -> B) (R : B -> B -> Prop)
    (l : list A) :
  StronglySorted (fun a b => R (f a) (f b)) l -> StronglySorted R (map f l).
Proof.
  induction 1 as [|y l Hl IH Hy]; simpl; constructor; [assumption|].
  now apply Forall_map.
Qed.

Lemma Qle_bool_total (x y : Q) : Qle_bool x y = false -> Qle_bool y x = true.
Proof.
  intros H. apply Qle_bool_iff. apply Qlt_le_weak, Qnot_le_lt.
  intros Hle. apply Qle_bool_iff in Hle. congruence.
Qed.

Lemma Qle_bool_trans (x y z : Q) :
  Qle_bool x y = true -> Qle_bool y z = true -> Qle_bool x z = true.
Proof.
  rewrite !Qle_bool_iff. apply Qle_trans.
Qed.

(** [order_by] with a rational key, descending or ascending. *)
Lemma order_by_desc_sorted {A : Type} (key : A -> Q) (l : list A) :
  StronglySorted (fun a b => (key b <= key a)%Q)
    (order_by (fun a b => Qle_bool (key b) (key a)) l).
Proof.
  unfold order_by.
  eapply StronglySorted_weaken;
    [|apply sorted_by_sorted with (leb := fun a b : A => Qle_bool (key b) (key a))].
  - intros a b _ _ H. now apply Qle_bool_iff.
  - intros a b. apply Qle_bool_total.
  - intros a b c H1 H2. now apply Qle_bool_trans with (key b).
Qed.

Lemma order_by_asc_sorted {A : Type} (key : A -> Q) (l : list A) :
  StronglySorted (fun a b => (key a <= key b)%Q)
    (order_by (fun a b => Qle_bool (key a) (key b)) l).
Proof.
  unfold order_by.
  eapply StronglySorted_weaken;
    [|apply sorted_by_sorted with (leb := fun a b : A => Qle_bool (key a) (key b))].
  - intros a b _ _ H. now apply Qle_bool_iff.
  - intros a b. apply Qle_bool_total.
  - intros a b c H1 H2. now apply Qle_bool_trans with (key b).
Qed.

Lemma order_by_In {A : Type} (leb : A -> A -> bool) (l : list A) (x : A) :
  In x (order_by leb l) <-> In x l.
Proof. apply sorted_by_In. Qed.

Lemma order_by_perm {A : Type} (leb : A -> A -> bool) (l : list A) :
  Permutation l (order_by leb l).
Proof. apply sorted_by_perm. Qed.

Lemma distinct_on_content_spec (rows : list scored) (seen : list str) :
  NoDup (map s_content (distinct_on_content seen rows)) /\
  forall r, In r (distinct_on_content seen rows) ->
            In r rows /\ ~ In (s_content r) seen.
Proof.
  revert seen; induction rows as [|r rows IH]; intros seen; simpl.
  - split; [constructor|intros r []].
  - destruct (mem (s_content r) seen) eqn:E.
    + destruct (IH seen) as [H1 H2]. split; [assumption|].
      intros r' Hr'. destruct (H2 r' Hr'). split; [now right|assumption].
    + apply mem_not_In in E. destruct (IH (s_content r :: seen)) as [H1 H2].
      split.
      * simpl. constructor; [|assumption].
        intros Hin. apply in_map_iff in Hin as [r' [Hc Hr']].
        destruct (H2 r' Hr') as [_ Hn]. apply Hn. left. now symmetry.
      * intros r' [<-|Hr']; [split; [now left|assumption]|].
        destruct (H2 r' Hr') as [Hin Hn]. split; [now right|].
        intros Hs. apply Hn. now right.
Qed.

(** Every content of the input is kept once. *)
Lemma distinct_on_content_complete (rows : list scored) (seen : list str)
    (r : scored) :
  In r rows -> ~ In (s_content r) seen ->
  In (s_content r) (map s_content (distinct_on_content seen rows)).
Proof.
  revert seen; induction rows as [|r0 rows IH]; intros seen Hin Hn; [destruct Hin|].
  simpl. destruct (mem (s_content r0) seen) eqn:E.
  - apply mem_In in E. destruct Hin as [<-|Hin]; [contradiction|].
    now apply IH.
  - simpl. destruct (str_eqb (s_content r0) (s_content r)) eqn:Ec.
    + left. now apply str_eqb_eq.
    + right. apply str_eqb_neq in Ec. destruct Hin as [<-|Hin]; [congruence|].
      apply IH; [assumption|]. intros [H|H]; [congruence|contradiction].
Qed.

(** ** The statements *)

Section Statements.

Variable cosine_distance : vector -> vector -> Q.
Variable ilike : str -> str -> bool.






End Statements.

(** ** [search_similar_documents] *)

Lemma embed_query_services (query : str) (w w1 : world) (r : result vector) :
  embed_query query default_max_retries w = (r, w1) -> same_services w w1.
Proof.
  unfold embed_query, embed_texts, bind.
  pose proof (embed_texts_from_spec default_max_retries [query]
                ltac:(vm_compute; discriminate) [] w) as H.
  destruct (embed_texts_from [query] default_max_retries [] w) as [[vs|e] w'].
  - destruct H as [new [_ [_ Hs]]].
    destruct vs; unfold ret, raise; intros E; injection E as _ <-; exact Hs.
  - destruct H as [_ [_ [_ [_ [_ [_ [_ [_ Hs]]]]]]]].
    intros E; injection E as _ <-; exact Hs.
Qed.

Lemma bind_run {A B : Type} (m : M A) (f : A -> M B) (w : world) :
  bind m f w =
  match m w with
  | (Ok a, w') => f a w'
  | (Raise e, w') => (Raise e, w')
  end.
Proof. reflexivity. Qed.

Section Search.

Variable cosine_distance : vector -> vector -> Q.
Variable ilike : str -> str -> bool.

Lemma execute_world (s : statement) (w : world) :
  snd (execute cosine_distance ilike s w) = w.
Proof.
  unfold execute. destruct (execute_error w); [reflexivity|].
  destruct (run_statement cosine_distance ilike (documents w) s); reflexivity.
Qed.

(** The control flow of the search: the embedding and the cursor come
    first and their exceptions pass through; an exception of the statement
    is turned into the empty list. *)
Lemma search_cases (query : str) (k : Z) (w : world) :
  match embed_query (expand_query query) default_max_retries w with
  | (Raise e, w1) =>
      search_similar_documents cosine_distance ilike query k w = (Raise e, w1)
  | (Ok v, w1) =>
      match connect_error w1 with
      | Some e =>
          search_similar_documents cosine_distance ilike query k w = (Raise e, w1)
      | None =>
          match fst (execute cosine_distance ilike
                       (search_statement v (extract_keywords query) k) w1) with
          | Ok hits =>
              search_similar_documents cosine_distance ilike query k w =
              (Ok (map document_of_hit hits), w1)
          | Raise _ =>
              search_similar_documents cosine_distance ilike query k w =
              (Ok [], w1)
          end
      end
  end.
Proof.
  unfold search_similar_documents.
  rewrite (bind_run (embed_query (expand_query query) default_max_retries) _ w).
  destruct (embed_query (expand_query query) default_max_retries w) as [[v|e] w1];
    [|reflexivity].
  rewrite (bind_run get_cursor _ w1). unfold get_cursor.
  destruct (connect_error w1); [reflexivity|].
  unfold try_except, bind.
  pose proof (execute_world (search_statement v (extract_keywords query) k) w1) as Hw.
  destruct (execute cosine_distance ilike
              (search_statement v (extract_keywords query) k) w1) as [[hits|e] w2];
    cbn [fst snd] in *; subst w2; reflexivity.
Qed.


(** C3, as amended (the embedding of the query and the cursor are
    obtained): an exception raised by the statement is turned into the
    empty list, and on an empty table the search returns the empty list;
    in both cases nothing is raised. *)
Theorem search_fails_open (query : str) (k : Z) (w : world)
    (query_embedding : vector) (w1 : world) :
  embed_query (expand_query query) default_max_retries w = (Ok query_embedding, w1) ->
  connect_error w = None ->
  (forall e,
     fst (execute cosine_distance ilike
            (search_statement query_embedding (extract_keywords query) k) w1)
       = Raise e ->
     search_similar_documents cosine_distance ilike query k w = (Ok [], w1)) /\
  (documents w = [] ->
     search_similar_documents cosine_distance ilike query k w = (Ok [], w1)).
Proof.
  intros He Hconn. pose proof (search_cases query k w) as Hc.
  rewrite He in Hc.
  apply embed_query_services in He as [_ [Hdocs [Hce _]]].
  rewrite Hce, Hconn in Hc. split.
  - intros e Hex. now rewrite Hex in Hc.
  - intros Hnone. rewrite <- Hdocs in Hnone.
    unfold execute in *. destruct (execute_error w1); [exact Hc|].
    rewrite Hnone in Hc. unfold run_statement, limit in Hc.
    destruct (limit_of _ <? 0)%Z; cbn [fst] in Hc; [exact Hc|].
    destruct (extract_keywords query) as [|kw kws];
      cbn [search_statement ranked] in Hc.
    + rewrite Hc. unfold order_by. cbn [sorted_by fold_right map].
      now rewrite firstn_nil.
    + rewrite Hc. unfold combined, semantic, keyword, order_by.
      cbn [sorted_by fold_right map firstn filter app distinct_on_content].
      now rewrite firstn_nil.
Qed.

End Search.

(** ** The theorems at sample inputs *)

Lemma extract_keywords_min_length_witness :
  2 <= len (py "비전") /\
  forall token, 2 <= len token ->
    (2 <=? len (strip_first_suffix token (sorted_by_len_reverse suffixes))) = true.
Proof.
  apply (extract_keywords_min_length scenario_query (py "비전")).
  in_by_computation.
Defined.





Lemma search_fails_open_witness :
  search_similar_documents unit_distance ilike_plain (py "비전") 12 outage_world =
  (Ok [], outage_after).
Proof.
  apply (proj1 (search_fails_open unit_distance ilike_plain (py "비전") 12
                  outage_world [1; 0]%Q outage_after
                  ltac:(vm_compute; reflexivity) ltac:(reflexivity))
               (Exception (py "connection lost"))).
  vm_compute. reflexivity.
Defined.

(** C3 as stated fails when the remote model is out of service: the table
    is empty and the search raises. *)
Lemma empty_store_search_raises :
  documents silent_world = [] /\
  fst (search_similar_documents unit_distance ilike_plain (py "비전") 12 silent_world) =
    Raise (Exception (py "Embedding failed after 5 retries: service unavailable")).
Proof. split; vm_compute; reflexivity. Qed.

(** ** [format_docs] on what file ingestion writes *)

(** C9 fails on the code: the first page of an uploaded PDF carries its
    page number and the tag [file], and its label in the context is the
    file name alone, without the page. *)
Theorem uploaded_page_label_without_page :
  load_file_pdf (py "vision.pdf") (py "/tmp/tmp8k2.pdf")
                [Some (py "Taejae vision statement")] = Ok [uploaded_page] /\
  dict_get (metadata uploaded_page) (py "page") = Some (JInt 1) /\
  format_docs [uploaded_page] =
    py "[Source 1: vision.pdf]" ++ nl ++ py "Taejae vision statement" /\
  contains (py "Page") (format_docs [uploaded_page]) = false.
Proof. vm_compute. repeat split; reflexivity. Qed.

(** * Further properties of the code *)

(** ** Adding documents *)

Lemma Forall2_map_left {A B C : Type} (f : A -> B) (P : B -> C -> Prop)
    (l : list A) (l' : list C) :
  Forall2 P (map f l) l' -> Forall2 (fun a c => P (f a) c) l l'.
Proof.
  revert l'; induction l as [|a l IH]; intros l' H; inversion H; subst;
    constructor; auto.
Qed.

Lemma embed_texts_services (texts : list str) (w w1 : world)
    (r : result (list vector)) :
  embed_texts texts default_max_retries w = (r, w1) -> same_services w w1.
Proof.
  unfold embed_texts.
  pose proof (embed_texts_from_spec default_max_retries texts
                ltac:(vm_compute; discriminate) [] w) as H.
  destruct (embed_texts_from texts default_max_retries [] w) as [[vs|e] w'];
    intros E; injection E as _ <-.
  - destruct H as [new [_ [_ Hs]]]. exact Hs.
  - destruct H as [_ [_ [_ [_ [_ [_ [_ [_ Hs]]]]]]]]. exact Hs.
Qed.

Lemma insert_data_contents (docs : list Document) (embeddings : list vector) :
  length embeddings = length docs ->
  map content (insert_data docs embeddings) = map page_content docs /\
  map row_metadata (insert_data docs embeddings) = map metadata docs /\
  map embedding (insert_data docs embeddings) = embeddings.
Proof.
  unfold insert_data. revert embeddings.
  induction docs as [|d docs IH]; intros [|v vs] H; try discriminate.
  - repeat split.
  - injection H as H. destruct (IH vs H) as [H1 [H2 H3]].
    cbn [combine map fst snd content row_metadata embedding].
    now rewrite H1, H2, H3.
Qed.

(** The paths through [add_documents_to_vectorstore] on a list that is
    not empty. *)
Lemma add_documents_cases (docs : list Document) (w : world) :
  docs <> [] ->
  match embed_texts (map page_content docs) default_max_retries w with
  | (Raise e, w1) => add_documents_to_vectorstore docs w = (Raise e, w1)
  | (Ok embeddings, w1) =>
      match connect_error w1 with
      | Some e => add_documents_to_vectorstore docs w = (Raise e, w1)
      | None =>
          match execute_error w1 with
          | Some e =>
              add_documents_to_vectorstore docs w =
              (Raise (Exception (py "Database error: " ++ str_of_exn e)), w1)
          | None =>
              add_documents_to_vectorstore docs w =
              (Ok (Z.of_nat (length docs)),
               set_documents w1 (documents w1 ++ insert_data docs embeddings))
          end
      end
  end.
Proof.
  intros Hne. destruct docs as [|d docs]; [congruence|].
  unfold add_documents_to_vectorstore.
  rewrite (bind_run (embed_texts (map page_content (d :: docs)) default_max_retries) _ w).
  destruct (embed_texts (map page_content (d :: docs)) default_max_retries w)
    as [[embeddings|e] w1]; [|reflexivity].
  rewrite (bind_run get_cursor _ w1). unfold get_cursor.
  destruct (connect_error w1); [reflexivity|].
  unfold try_except, bind, execute_update.
  destruct (execute_error w1); reflexivity.
Qed.

(** X1: when [add_documents_to_vectorstore] returns, it returns the number
    of documents given, and the table has grown at its end by exactly one
    row for every document, in the order given, holding the document's
    content and metadata and the vector the remote model gave for that
    content; the rows that were there are untouched. *)
Theorem add_documents_appends (docs : list Document) (w : world) (n : Z)
    (w' : world) :
  add_documents_to_vectorstore docs w = (Ok n, w') ->
  n = Z.of_nat (length docs) /\
  exists embeddings,
    documents w' = documents w ++ insert_data docs embeddings /\
    length embeddings = length docs /\
    Forall2 (fun doc v => exists c, embed_content w c (page_content doc) = Ok v)
            docs embeddings /\
    map content (insert_data docs embeddings) = map page_content docs /\
    map row_metadata (insert_data docs embeddings) = map metadata docs /\
    map embedding (insert_data docs embeddings) = embeddings.
Proof.
  destruct docs as [|d docs].
  - cbn. intros H. injection H as <- <-. split; [reflexivity|].
    exists []. rewrite app_nil_r. repeat split. constructor.
  - intros H. pose proof (add_documents_cases (d :: docs) w ltac:(discriminate)) as Hc.
    pose proof (embed_texts_from_spec default_max_retries
                  (map page_content (d :: docs))
                  ltac:(vm_compute; discriminate) [] w) as Hall.
    fold (embed_texts (map page_content (d :: docs)) default_max_retries) in Hall.
    destruct (embed_texts (map page_content (d :: docs)) default_max_retries w)
      as [[embeddings|e] w1] eqn:Ee; [|congruence].
    apply embed_texts_services in Ee as [_ [Hdocs _]].
    destruct (connect_error w1); [congruence|].
    destruct (execute_error w1); [congruence|].
    rewrite Hc in H. injection H as <- <-. split; [reflexivity|].
    destruct Hall as [new [Hnew [Hf _]]]. cbn [app] in Hnew. subst new.
    assert (Hlen : length embeddings = length (d :: docs)).
    { apply Forall2_length in Hf. now rewrite length_map in Hf. }
    exists embeddings. cbn [documents set_documents]. rewrite Hdocs.
    split; [reflexivity|]. split; [assumption|]. split.
    + exact (Forall2_map_left page_content
               (fun text v => exists n, embed_content w n text = Ok v)
               (d :: docs) embeddings Hf).
    + now apply insert_data_contents.
Qed.


(** ** Counting *)

Lemma get_document_count_run (w : world) :
  get_document_count w =
  (Ok match connect_error w, execute_error w with
      | None, None => Z.of_nat (length (documents w))
      | _, _ => 0%Z
      end, w).
Proof.
  unfold get_document_count, try_except, bind, get_cursor, execute_query, ret.
  destruct (connect_error w); [reflexivity|].
  destruct (execute_error w); reflexivity.
Qed.

(** X3: [get_document_count] never raises and leaves the world as it is;
    it returns the number of rows when the database works and 0 when the
    connection or the statement fails. *)
Theorem get_document_count_spec (w : world) :
  exists n, get_document_count w = (Ok n, w) /\
    (connect_error w = None -> execute_error w = None ->
     n = Z.of_nat (length (documents w))) /\
    (connect_error w <> None \/ execute_error w <> None -> n = 0%Z).
Proof.
  rewrite get_document_count_run.
  destruct (connect_error w) eqn:E1.
  - exists 0%Z. repeat split. discriminate.
  - destruct (execute_error w) eqn:E2.
    + exists 0%Z. repeat split. discriminate.
    + exists (Z.of_nat (length (documents w))). repeat split.
      intros [H|H]; congruence.
Qed.

(** ** The migration of the type tags *)

Lemma dict_get_jsonb_set (d : dict) (key : str) (value : json) :
  dict_get (jsonb_set d key value) key = Some value.
Proof.
  induction d as [|[k v] d IH]; cbn [jsonb_set dict_get].
  - now rewrite str_eqb_refl.
  - destruct (str_eqb k key) eqn:E; cbn [dict_get]; rewrite E; [reflexivity|exact IH].
Qed.

Lemma dict_get_jsonb_set_other (d : dict) (key key' : str) (value : json) :
  key' <> key -> dict_get (jsonb_set d key value) key' = dict_get d key'.
Proof.
  intros Hne. induction d as [|[k v] d IH]; cbn [jsonb_set dict_get].
  - destruct (str_eqb key key') eqn:E; [|reflexivity].
    apply str_eqb_eq in E. congruence.
  - destruct (str_eqb k key) eqn:E; cbn [dict_get].
    + destruct (str_eqb k key') eqn:E'; [|reflexivity].
      apply str_eqb_eq in E, E'. congruence.
    + destruct (str_eqb k key'); [reflexivity|exact IH].
Qed.

Lemma file_not_legacy : mem (py "file") legacy_types = false.
Proof. vm_compute. reflexivity. Qed.

Lemma migrate_row_type (d : row) (t : str) :
  type_text (migrate_row d) = Some t -> ~ In t legacy_types.
Proof.
  unfold migrate_row. destruct (type_text d) as [t0|] eqn:E.
  - destruct (mem t0 legacy_types) eqn:Em.
    + unfold type_text. cbn [row_metadata]. rewrite dict_get_jsonb_set.
      cbn [option_map json_text]. intros H. injection H as <-.
      apply mem_not_In, file_not_legacy.
    + rewrite E. intros H. injection H as <-. now apply mem_not_In.
  - rewrite E. discriminate.
Qed.

Lemma migrate_row_other (d : row) :
  (forall t, type_text d = Some t -> ~ In t legacy_types) -> migrate_row d = d.
Proof.
  intros H. unfold migrate_row. destruct (type_text d) as [t|]; [|reflexivity].
  destruct (mem t legacy_types) eqn:Em; [|reflexivity].
  apply mem_In in Em. now destruct (H t eq_refl).
Qed.

Lemma migrate_row_idempotent (d : row) : migrate_row (migrate_row d) = migrate_row d.
Proof. apply migrate_row_other. apply migrate_row_type. Qed.

Lemma migrate_row_keeps (d : row) :
  content (migrate_row d) = content d /\
  embedding (migrate_row d) = embedding d /\
  forall key, key <> py "type" ->
    dict_get (row_metadata (migrate_row d)) key = dict_get (row_metadata d) key.
Proof.
  unfold migrate_row. destruct (type_text d) as [t|]; [|repeat split].
  destruct (mem t legacy_types); [|repeat split].
  cbn [content embedding row_metadata]. repeat split.
  intros key Hk. now apply dict_get_jsonb_set_other.
Qed.

Lemma set_documents_same (w : world) : set_documents w (documents w) = w.
Proof. now destruct w. Qed.


Lemma migrate_file_types_run (w : world) :
  migrate_file_types w =
  (Ok tt,
   match connect_error w, execute_error w with
   | None, None => set_documents w (map migrate_row (documents w))
   | _, _ => w
   end).
Proof.
  unfold migrate_file_types, try_except, bind, get_cursor, execute_update, ret.
  destruct (connect_error w); [reflexivity|].
  destruct (execute_error w); reflexivity.
Qed.

(** X5: running the migration again changes nothing. *)
Theorem migrate_file_types_idempotent (w w1 w2 : world) :
  migrate_file_types w = (Ok tt, w1) ->
  migrate_file_types w1 = (Ok tt, w2) ->
  w2 = w1.
Proof.
  rewrite !migrate_file_types_run. intros H1 H2.
  injection H1 as <-. injection H2 as <-.
  destruct (connect_error w) eqn:E1; [now rewrite E1|].
  destruct (execute_error w) eqn:E2; [now rewrite E1, E2|].
  cbn [connect_error execute_error documents set_documents].
  rewrite E1, E2. unfold set_documents.
  cbn [documents embed_content calls slept connect_error execute_error].
  f_equal. rewrite map_map. apply map_ext. apply migrate_row_idempotent.
Qed.

(** ** Deleting *)



Lemma filter_filter_same {A : Type} (f : A -> bool) (l : list A) :
  filter f (filter f l) = filter f l.
Proof.
  induction l as [|x l IH]; [reflexivity|].
  cbn [filter]. destruct (f x) eqn:E; [|exact IH].
  cbn [filter]. now rewrite E, IH.
Qed.

Lemma filter_none_left {A : Type} (f : A -> bool) (l : list A) :
  filter f (filter (fun x => negb (f x)) l) = [].
Proof.
  apply filter_none. intros x Hx. apply filter_In in Hx as [_ Hx].
  now apply negb_true_iff.
Qed.

Lemma clear_vectorstore_by_type_run (doc_type : str) (w : world) :
  clear_vectorstore_by_type doc_type w =
  match connect_error w with
  | Some e =>
      (Raise (Exception (py "Failed to clear documents by type: " ++ str_of_exn e)), w)
  | None =>
      match execute_error w with
      | Some e =>
          (Raise (Exception (py "Failed to clear documents by type: " ++ str_of_exn e)), w)
      | None =>
          (Ok (Z.of_nat (length (filter (has_type doc_type) (documents w)))),
           set_documents w
             (filter (fun d => negb (has_type doc_type d)) (documents w)))
      end
  end.
Proof.
  unfold clear_vectorstore_by_type, try_except, bind, get_cursor, delete_by_type, raise.
  destruct (connect_error w); [reflexivity|].
  destruct (execute_error w); reflexivity.
Qed.

(** X7: deleting a type a second time deletes nothing: the call returns 0
    and leaves the world as the first call left it. *)
Theorem clear_vectorstore_by_type_again (doc_type : str) (w : world) (n : Z)
    (w' : world) :
  clear_vectorstore_by_type doc_type w = (Ok n, w') ->
  clear_vectorstore_by_type doc_type w' = (Ok 0%Z, w').
Proof.
  rewrite !clear_vectorstore_by_type_run.
  destruct (connect_error w) eqn:E1; [discriminate|].
  destruct (execute_error w) eqn:E2; [discriminate|].
  intros H. injection H as _ <-.
  cbn [connect_error execute_error documents set_documents].
  rewrite E1, E2, filter_none_left, filter_filter_same. reflexivity.
Qed.


(** ** Counting by type *)

Lemma count_type_positive (table : list row) (t : str) :
  0 < count_type table t <-> exists d, In d table /\ doc_type_of d = t.
Proof.
  unfold count_type. split.
  - intros H. destruct (filter _ table) as [|d l] eqn:E; [inversion H|].
    assert (Hd : In d (filter (fun d => str_eqb (doc_type_of d) t) table))
      by (rewrite E; now left).
    apply filter_In in Hd as [Hd Ht]. exists d. split; [assumption|].
    now apply str_eqb_eq.
  - intros [d [Hd Ht]].
    assert (Hin : In d (filter (fun d => str_eqb (doc_type_of d) t) table)).
    { apply filter_In. split; [assumption|]. now apply str_eqb_eq. }
    destruct (filter _ table); [destruct Hin|cbn; lia].
Qed.

Lemma dict_of_rows_distinct (rows d : list (str * Z)) :
  NoDup (map fst (d ++ rows)) -> dict_of_rows rows d = d ++ rows.
Proof.
  revert d; induction rows as [|[k v] rows IH]; intros d H; cbn [dict_of_rows].
  - now rewrite app_nil_r.
  - assert (Hk : existsb (fun kv : str * Z => str_eqb (fst kv) k) d = false).
    { destruct (existsb _ d) eqn:E; [|reflexivity].
      apply existsb_exists in E as [[k' v'] [Hin Hk']]. cbn in Hk'.
      apply str_eqb_eq in Hk'. subst k'.
      rewrite map_app in H. cbn [map fst] in H.
      apply NoDup_remove_2 in H. exfalso. apply H. apply in_or_app. left.
      apply in_map_iff. now exists (k, v'). }
    rewrite Hk, IH; rewrite <- app_assoc; [reflexivity|exact H].
Qed.

Lemma sum_permutation (l l' : list Z) :
  Permutation l l' -> fold_right Z.add 0%Z l = fold_right Z.add 0%Z l'.
Proof.
  induction 1; cbn [fold_right]; lia.
Qed.

Lemma sum_indicator (keys : list str) (x : str) :
  NoDup keys -> In x keys ->
  fold_right Z.add 0%Z (map (fun t => if str_eqb x t then 1%Z else 0%Z) keys) = 1%Z.
Proof.
  induction 1 as [|k keys Hk Hnd IH]; intros Hin; [destruct Hin|].
  cbn [map fold_right]. destruct (str_eqb x k) eqn:E.
  - apply str_eqb_eq in E. subst k.
    assert (H0 : fold_right Z.add 0%Z
                   (map (fun t => if str_eqb x t then 1%Z else 0%Z) keys) = 0%Z).
    { clear IH Hin Hnd. induction keys as [|k keys IH]; [reflexivity|].
      cbn [map fold_right]. destruct (str_eqb x k) eqn:E.
      - apply str_eqb_eq in E. subst k. exfalso. apply Hk. now left.
      - rewrite IH; [reflexivity|]. intros H. apply Hk. now right. }
    lia.
  - destruct Hin as [->|Hin]; [now rewrite str_eqb_refl in E|].
    rewrite IH by assumption. lia.
Qed.

Lemma sum_counts (table : list row) (keys : list str) :
  NoDup keys -> (forall d, In d table -> In (doc_type_of d) keys) ->
  fold_right Z.add 0%Z (map (fun t => Z.of_nat (count_type table t)) keys) =
  Z.of_nat (length table).
Proof.
  intros Hnd. induction table as [|d table IH]; intros Hcover.
  - unfold count_type. cbn [filter length]. clear Hnd Hcover.
    induction keys as [|k keys IH]; cbn [map fold_right]; [reflexivity|lia].
  - assert (Hsplit : forall ks,
      fold_right Z.add 0%Z (map (fun t => Z.of_nat (count_type (d :: table) t)) ks) =
      (fold_right Z.add 0%Z
         (map (fun t => if str_eqb (doc_type_of d) t then 1%Z else 0%Z) ks) +
       fold_right Z.add 0%Z (map (fun t => Z.of_nat (count_type table t)) ks))%Z).
    { induction ks as [|k ks IHk]; [reflexivity|].
      cbn [map fold_right]. rewrite IHk. unfold count_type. cbn [filter].
      destruct (str_eqb (doc_type_of d) k); cbn [length]; lia. }
    rewrite Hsplit, IH, sum_indicator.
    + cbn [length]. lia.
    + assumption.
    + apply Hcover. now left.
    + intros d' Hd'. apply Hcover. now right.
Qed.

Lemma counts_by_type_spec (table : list row) :
  NoDup (map fst (counts_by_type table)) /\
  (forall t n, In (t, n) (counts_by_type table) <->
               n = Z.of_nat (count_type table t) /\ (0 < n)%Z) /\
  StronglySorted (fun a b : str * Z => (snd b <= snd a)%Z) (counts_by_type table) /\
  fold_right Z.add 0%Z (map snd (counts_by_type table)) = Z.of_nat (length table).
Proof.
  unfold counts_by_type.
  set (keys := list_dict_fromkeys (map doc_type_of table)).
  set (groups := map (fun t => (t, Z.of_nat (count_type table t))) keys).
  assert (Hkeys : NoDup keys) by apply fromkeys_NoDup.
  assert (Hin : forall t, In t keys <-> exists d, In d table /\ doc_type_of d = t).
  { intros t. unfold keys. rewrite fromkeys_In, in_map_iff.
    split; intros [d [H1 H2]]; exists d; tauto. }
  assert (Hfst : map fst groups = keys).
  { unfold groups. rewrite map_map. cbn [fst]. apply map_id. }
  assert (Hsnd : map snd groups = map (fun t => Z.of_nat (count_type table t)) keys).
  { unfold groups. rewrite map_map. reflexivity. }
  split; [|split; [|split]].
  - eapply Permutation_NoDup; [apply Permutation_map, order_by_perm|].
    now rewrite Hfst.
  - intros t n. rewrite order_by_In. unfold groups. rewrite in_map_iff. split.
    + intros [t' [E Ht']]. injection E as -> <-. split; [reflexivity|].
      apply Hin, count_type_positive in Ht'. lia.
    + intros [-> Hpos]. exists t. split; [reflexivity|].
      apply Hin, count_type_positive. lia.
  - unfold order_by. eapply StronglySorted_weaken;
      [|apply sorted_by_sorted
          with (leb := fun a b : str * Z => (snd b <=? snd a)%Z)].
    + intros a b _ _ H. now apply Z.leb_le.
    + intros a b H. apply Z.leb_gt in H. apply Z.leb_le. lia.
    + intros a b c H1 H2. apply Z.leb_le in H1, H2. apply Z.leb_le. lia.
  - rewrite <- (sum_permutation _ _
                  (Permutation_map snd (order_by_perm
                     (fun a b : str * Z => (snd b <=? snd a)%Z) groups))).
    rewrite Hsnd. apply sum_counts; [assumption|].
    intros d Hd. apply Hin. now exists d.
Qed.

Lemma get_document_counts_by_type_run (w : world) :
  get_document_counts_by_type w =
  (Ok match connect_error w, execute_error w with
      | None, None => counts_by_type (documents w)
      | _, _ => []
      end, w).
Proof.
  unfold get_document_counts_by_type, try_except, bind, get_cursor,
    execute_query, ret.
  destruct (connect_error w); [reflexivity|].
  destruct (execute_error w); [reflexivity|].
  rewrite (dict_of_rows_distinct (counts_by_type (documents w)) []);
    [reflexivity|apply counts_by_type_spec].
Qed.

(** X8: [get_document_counts_by_type] never raises and changes nothing.
    When the database works, its result has one entry for every type tag
    that occurs in the table (rows without a tag count as unknown), with
    the number of rows of that type, larger counts first, and the counts
    add up to the number of rows; when it fails, the result is empty. *)
Theorem get_document_counts_by_type_spec (w : world) :
  exists counts, get_document_counts_by_type w = (Ok counts, w) /\
    (connect_error w <> None \/ execute_error w <> None -> counts = []) /\
    (connect_error w = None -> execute_error w = None ->
       NoDup (map fst counts) /\
       (forall t n, In (t, n) counts <->
                    n = Z.of_nat (count_type (documents w) t) /\ (0 < n)%Z) /\
       StronglySorted (fun a b : str * Z => (snd b <= snd a)%Z) counts /\
       fold_right Z.add 0%Z (map snd counts) = Z.of_nat (length (documents w))).
Proof.
  rewrite get_document_counts_by_type_run.
  destruct (connect_error w) eqn:E1.
  { exists []. repeat split; discriminate. }
  destruct (execute_error w) eqn:E2.
  { exists []. repeat split; discriminate. }
  exists (counts_by_type (documents w)).
  destruct (counts_by_type_spec (documents w)) as [H1 [H2 [H3 H4]]].
  split; [reflexivity|]. split; [intros [H|H]; congruence|].
  intros _ _. split; [assumption|]. split; [exact H2|]. split; assumption.
Qed.

(** X9: after [clear_vectorstore_by_type] has deleted a type other than
    unknown, the counts by type have no entry for it.  (Rows without a tag
    are counted as unknown and are not deleted with that type.) *)
Theorem cleared_type_not_counted (doc_type : str) (w : world) (n : Z) (w' : world)
    (counts : list (str * Z)) :
  doc_type <> py "unknown" ->
  clear_vectorstore_by_type doc_type w = (Ok n, w') ->
  get_document_counts_by_type w' = (Ok counts, w') ->
  ~ In doc_type (map fst counts).
Proof.
  intros Hne Hclear Hcounts Hin.
  rewrite clear_vectorstore_by_type_run in Hclear.
  destruct (connect_error w) eqn:E1; [discriminate|].
  destruct (execute_error w) eqn:E2; [discriminate|].
  injection Hclear as _ <-.
  rewrite get_document_counts_by_type_run in Hcounts.
  cbn [connect_error execute_error documents set_documents] in Hcounts.
  rewrite E1, E2 in Hcounts. injection Hcounts as <-.
  destruct (counts_by_type_spec
              (filter (fun d => negb (has_type doc_type d)) (documents w)))
    as [_ [Hmem _]].
  apply in_map_iff in Hin as [[t m] [Ht Hin]]. cbn in Ht. subst t.
  apply Hmem in Hin as [Hm Hpos]. rewrite Hm in Hpos.
  assert (Hc : 0 < count_type
                 (filter (fun d => negb (has_type doc_type d)) (documents w))
                 doc_type) by lia.
  apply count_type_positive in Hc as [d [Hd Ht]].
  apply filter_In in Hd as [_ Hd].
  apply negb_true_iff in Hd. unfold doc_type_of in Ht. unfold has_type in Hd.
  destruct (type_text d) as [t|].
  - subst t. now rewrite str_eqb_refl in Hd.
  - congruence.
Qed.

(** ** The cost of embedding *)

Lemma embed_texts_from_calls (max_retries : Z) (texts : list str) :
  (1 <= max_retries)%Z ->
  forall (all_embeddings : list vector) (w : world),
    match embed_texts_from texts max_retries all_embeddings w with
    | (Ok vectors, w') =>
        calls w + length texts <= calls w' /\
        calls w' <= calls w + Z.to_nat max_retries * length texts /\
        length (slept w') + length texts = length (slept w) + (calls w' - calls w)
    | (Raise e, w') =>
        calls w + Z.to_nat max_retries <= calls w' /\
        calls w' <= calls w + Z.to_nat max_retries * length texts
    end.
Proof.
  intros Hmr. induction texts as [|text rest IH]; intros acc w.
  - cbn. lia.
  - cbn [embed_texts_from]. rewrite bind_run. unfold range.
    pose proof (embed_attempts_spec text max_retries (Z.to_nat max_retries) 0 w
                  ltac:(cbn [Nat.add]; lia)) as Ha.
    destruct (embed_attempts text max_retries
                (map Z.of_nat (seq 0 (Z.to_nat max_retries))) w)
      as [[[v|]|e] w1].
    + destruct Ha as [j [Hj [_ [_ [Hc [Hs _]]]]]].
      apply (f_equal (@length Z)) in Hs.
      rewrite length_app, length_map, length_seq in Hs.
      specialize (IH (acc ++ [v]) w1).
      destruct (embed_texts_from rest max_retries (acc ++ [v]) w1)
        as [[vectors|e] w']; cbn [length]; nia.
    + destruct Ha as [Hn _]. lia.
    + destruct Ha as [m [e_last [Hn [_ [_ [_ [Hc _]]]]]]]. cbn [length]. nia.
Qed.

(** X11: for every retry bound of at least one, [embed_texts] calls the
    remote model at most [max_retries] times for every text; when it
    returns, it has called it at least once for every text and has slept
    once after every call that failed; when it raises, it has made at least
    [max_retries] calls.  The remote model, the table and the database
    faults are as before. *)
Theorem embed_texts_cost (texts : list str) (max_retries : Z) (w : world)
    (r : result (list vector)) (w' : world) :
  (1 <= max_retries)%Z ->
  embed_texts texts max_retries w = (r, w') ->
  calls w' <= calls w + Z.to_nat max_retries * length texts /\
  (forall vectors, r = Ok vectors ->
     length vectors = length texts /\
     calls w + length texts <= calls w' /\
     length (slept w') = length (slept w) + (calls w' - calls w - length texts)) /\
  (forall e, r = Raise e -> calls w + Z.to_nat max_retries <= calls w') /\
  same_services w w'.
Proof.
  intros Hmr. unfold embed_texts. intros H.
  pose proof (embed_texts_from_calls max_retries texts Hmr [] w) as Hc.
  pose proof (embed_texts_from_spec max_retries texts Hmr [] w) as Hs.
  rewrite H in Hc, Hs. destruct r as [vectors|e].
  - destruct Hc as [H1 [H2 H3]]. destruct Hs as [new [Hnew [Hf Hsame]]].
    split; [assumption|]. split; [|split; [discriminate|assumption]].
    intros vs E. injection E as <-. cbn [app] in Hnew. subst new.
    apply Forall2_length in Hf. repeat split; lia.
  - destruct Hc as [H1 H2].
    destruct Hs as [_ [_ [_ [_ [_ [_ [_ [_ Hsame]]]]]]]].
    split; [assumption|]. split; [discriminate|].
    split; [|assumption]. intros e' _. assumption.
Qed.

(** X12: with a retry bound of zero or less the loop over the attempts is
    empty: [embed_texts] calls nothing, returns the empty list whatever the
    texts, and [embed_query] raises the index error of [[0]]. *)
Theorem embed_texts_without_attempts (texts : list str) (max_retries : Z)
    (w : world) :
  (max_retries <= 0)%Z ->
  embed_texts texts max_retries w = (Ok [], w) /\
  forall query, embed_query query max_retries w =
                (Raise (Exception (py "list index out of range")), w).
Proof.
  intros Hmr.
  assert (Hrange : range max_retries = []).
  { unfold range. replace (Z.to_nat max_retries) with 0 by lia. reflexivity. }
  assert (H : forall ts acc w0, embed_texts_from ts max_retries acc w0 = (Ok acc, w0)).
  { induction ts as [|t ts IH]; intros acc w0; [reflexivity|].
    cbn [embed_texts_from]. rewrite Hrange, bind_run.
    cbn [embed_attempts]. unfold ret at 1. apply IH. }
  split; [apply H|].
  intros query. unfold embed_query. rewrite bind_run. unfold embed_texts.
  now rewrite H.
Qed.

(** ** The search reads only *)

(** X13: whatever the outcome, [search_similar_documents] leaves the
    table, the remote model and the faults of the database as they were. *)
Theorem search_reads_only (cosine_distance : vector -> vector -> Q)
    (ilike : str -> str -> bool) (query : str) (k : Z) (w : world)
    (r : result (list Document)) (w' : world) :
  search_similar_documents cosine_distance ilike query k w = (r, w') ->
  same_services w w'.
Proof.
  intros H. pose proof (search_cases cosine_distance ilike query k w) as Hc.
  destruct (embed_query (expand_query query) default_max_retries w)
    as [[v|e] w1] eqn:Ee; apply embed_query_services in Ee.
  - destruct (connect_error w1).
    + rewrite Hc in H. now injection H as _ <-.
    + destruct (fst (execute cosine_distance ilike
                       (search_statement v (extract_keywords query) k) w1));
        rewrite Hc in H; now injection H as _ <-.
  - rewrite Hc in H. now injection H as _ <-.
Qed.

(** ** The best candidates are returned *)

Lemma StronglySorted_app_both {A : Type} (R : A -> A -> Prop) (l1 l2 : list A) :
  StronglySorted R (l1 ++ l2) ->
  forall a b, In a l1 -> In b l2 -> R a b.
Proof.
  induction l1 as [|x l1 IH]; intros H a b Ha Hb; [destruct Ha|].
  cbn [app] in H. inversion H as [|? ? Hs Hall]; subst.
  destruct Ha as [<-|Ha].
  - rewrite Forall_forall in Hall. apply Hall. apply in_or_app. now right.
  - now apply IH.
Qed.

Section Ranking.

Variable cosine_distance : vector -> vector -> Q.
Variable ilike : str -> str -> bool.

Lemma ranked_sorted (table : list row) (s : statement) :
  StronglySorted (fun a b => (fused_score ilike s b <= fused_score ilike s a)%Q)
    (ranked cosine_distance ilike table s).
Proof.
  destruct s as [vec kw kws k|vec k]; cbn [ranked fused_score].
  - apply order_by_desc_sorted.
  - apply StronglySorted_map.
    eapply StronglySorted_weaken;
      [|apply order_by_asc_sorted
          with (key := fun d : row => cosine_distance (embedding d) vec)].
    intros a b _ _ H. cbn [score_row base_similarity].
    apply Qplus_le_r. now apply Qopp_le_compat.
Qed.

Lemma ranked_candidates (table : list row) (s : statement) :
  Permutation (candidates cosine_distance ilike table s)
              (ranked cosine_distance ilike table s).
Proof.
  destruct s as [vec kw kws k|vec k]; cbn [ranked candidates].
  - apply order_by_perm.
  - apply Permutation_map, order_by_perm.
Qed.

(** X14: the rows a statement returns are the best of its candidates: the
    candidates are the returned rows and a rest, no row of the rest has a
    higher fused score than a returned row, and rows are left out only
    when the limit is reached. *)
Theorem run_statement_best (table : list row) (s : statement) (rows : list scored) :
  run_statement cosine_distance ilike table s = Ok rows ->
  exists rest,
    Permutation (candidates cosine_distance ilike table s) (rows ++ rest) /\
    (forall a b, In a rows -> In b rest ->
       (fused_score ilike s b <= fused_score ilike s a)%Q) /\
    (rest <> [] -> length rows = Z.to_nat (limit_of s)).
Proof.
  unfold run_statement, limit. destruct (limit_of s <? 0)%Z; [discriminate|].
  intros H. injection H as <-.
  exists (skipn (Z.to_nat (limit_of s)) (ranked cosine_distance ilike table s)).
  rewrite firstn_skipn. split; [apply ranked_candidates|]. split.
  - apply StronglySorted_app_both. rewrite firstn_skipn. apply ranked_sorted.
  - intros Hrest. apply firstn_length_le.
    destruct (Nat.le_gt_cases (Z.to_nat (limit_of s))
                (length (ranked cosine_distance ilike table s))) as [Hle|Hgt];
      [assumption|].
    exfalso. apply Hrest. apply skipn_all2. lia.
Qed.

End Ranking.

(** ** Merging the pools *)

Lemma str_compare_eq (a b : str) : str_compare a b = Eq <-> a = b.
Proof.
  revert b; induction a as [|x a IH]; intros [|y b]; cbn [str_compare];
    try (split; [discriminate|discriminate]); [tauto|].
  destruct (x ?= y)%N eqn:E.
  - apply N.compare_eq_iff in E. subst y. rewrite IH. split; congruence.
  - split; [discriminate|]. intros H. injection H as -> _.
    rewrite N.compare_refl in E. discriminate.
  - split; [discriminate|]. intros H. injection H as -> _.
    rewrite N.compare_refl in E. discriminate.
Qed.

Lemma str_compare_antisym (a b : str) :
  str_compare b a = CompOpp (str_compare a b).
Proof.
  revert b; induction a as [|x a IH]; intros [|y b]; cbn [str_compare];
    try reflexivity.
  rewrite (N.compare_antisym x y). destruct (x ?= y)%N; cbn [CompOpp];
    [apply IH|reflexivity|reflexivity].
Qed.

Lemma str_compare_lt_trans (a b c : str) :
  str_compare a b = Lt -> str_compare b c = Lt -> str_compare a c = Lt.
Proof.
  revert b c; induction a as [|x a IH]; intros [|y b] [|z c];
    cbn [str_compare]; try discriminate; try reflexivity.
  destruct (N.compare_spec x y), (N.compare_spec y z); try discriminate; subst.
  - rewrite N.compare_refl. apply IH.
  - intros _ _. now apply N.compare_lt_iff in H0 as ->.
  - intros _ _. now apply N.compare_lt_iff in H as ->.
  - intros _ _. assert (Hlt : (x < z)%N) by (now apply N.lt_trans with y).
    now apply N.compare_lt_iff in Hlt as ->.
Qed.

(** The order of [ORDER BY content, base_similarity DESC]. *)
Lemma by_content_total (a b : scored) :
  match str_compare (s_content a) (s_content b) with
  | Lt => true
  | Gt => false
  | Eq => Qle_bool (base_similarity b) (base_similarity a)
  end = false ->
  match str_compare (s_content b) (s_content a) with
  | Lt => true
  | Gt => false
  | Eq => Qle_bool (base_similarity a) (base_similarity b)
  end = true.
Proof.
  rewrite (str_compare_antisym (s_content a) (s_content b)).
  destruct (str_compare (s_content a) (s_content b)); cbn [CompOpp];
    [apply Qle_bool_total|discriminate|reflexivity].
Qed.

Lemma by_content_trans (a b c : scored) :
  match str_compare (s_content a) (s_content b) with
  | Lt => true
  | Gt => false
  | Eq => Qle_bool (base_similarity b) (base_similarity a)
  end = true ->
  match str_compare (s_content b) (s_content c) with
  | Lt => true
  | Gt => false
  | Eq => Qle_bool (base_similarity c) (base_similarity b)
  end = true ->
  match str_compare (s_content a) (s_content c) with
  | Lt => true
  | Gt => false
  | Eq => Qle_bool (base_similarity c) (base_similarity a)
  end = true.
Proof.
  destruct (str_compare (s_content a) (s_content b)) eqn:E1; [| |discriminate];
    destruct (str_compare (s_content b) (s_content c)) eqn:E2; try discriminate.
  - apply str_compare_eq in E1, E2. rewrite E1, E2.
    rewrite (proj2 (str_compare_eq _ _) eq_refl).
    intros H1 H2. now apply Qle_bool_trans with (base_similarity b).
  - apply str_compare_eq in E1. rewrite E1, E2. reflexivity.
  - apply str_compare_eq in E2. rewrite <- E2, E1. reflexivity.
  - now rewrite (str_compare_lt_trans _ _ _ E1 E2).
Qed.

(** A row kept by [DISTINCT ON] is the first of its content. *)
Lemma distinct_on_content_first (rows : list scored) (seen : list str) (r : scored) :
  In r (distinct_on_content seen rows) ->
  exists l1 l2, rows = l1 ++ r :: l2 /\
                forall x, In x l1 -> s_content x <> s_content r.
Proof.
  revert seen; induction rows as [|r0 rows IH]; intros seen H; [destruct H|].
  cbn [distinct_on_content] in H. destruct (mem (s_content r0) seen) eqn:E.
  - destruct (proj2 (distinct_on_content_spec rows seen) r H) as [_ Hns].
    destruct (IH seen H) as [l1 [l2 [-> Hl1]]].
    exists (r0 :: l1), l2. split; [reflexivity|].
    intros x [<-|Hx]; [|now apply Hl1].
    apply mem_In in E. congruence.
  - destruct H as [<-|H].
    + exists [], rows. split; [reflexivity|]. intros x [].
    + destruct (proj2 (distinct_on_content_spec rows (s_content r0 :: seen)) r H)
        as [_ Hns].
      destruct (IH _ H) as [l1 [l2 [-> Hl1]]].
      exists (r0 :: l1), l2. split; [reflexivity|].
      intros x [<-|Hx]; [|now apply Hl1].
      intros Heq. apply Hns. now left.
Qed.

(** X15: merging the two pools keeps one row for every content that
    occurs in them, a row of the pools, and among the rows of one content
    one of the highest base similarity. *)
Theorem combined_keeps_best (cosine_distance : vector -> vector -> Q)
    (ilike : str -> str -> bool) (table : list row) (vec : vector)
    (kw : str) (kws : list str) :
  NoDup (map s_content (combined cosine_distance ilike table vec kw kws)) /\
  (forall r', In r' (pools cosine_distance ilike table vec kw kws) ->
     In (s_content r')
        (map s_content (combined cosine_distance ilike table vec kw kws))) /\
  (forall r, In r (combined cosine_distance ilike table vec kw kws) ->
     In r (pools cosine_distance ilike table vec kw kws) /\
     forall r', In r' (pools cosine_distance ilike table vec kw kws) ->
       s_content r' = s_content r ->
       (base_similarity r' <= base_similarity r)%Q).
Proof.
  unfold combined. fold (pools cosine_distance ilike table vec kw kws).
  set (leb := fun a b : scored =>
                match str_compare (s_content a) (s_content b) with
                | Lt => true
                | Gt => false
                | Eq => Qle_bool (base_similarity b) (base_similarity a)
                end).
  set (P := pools cosine_distance ilike table vec kw kws).
  split; [apply distinct_on_content_spec|]. split.
  - intros r' Hr'. apply distinct_on_content_complete; [|intros []].
    now apply order_by_In.
  - intros r Hr.
    destruct (proj2 (distinct_on_content_spec (order_by leb P) []) r Hr) as [Hin _].
    split; [now apply order_by_In in Hin|].
    intros r' Hr' Hc.
    destruct (distinct_on_content_first _ _ _ Hr) as [l1 [l2 [Hsplit Hl1]]].
    assert (Hsorted : StronglySorted (fun a b => leb a b = true) (order_by leb P)).
    { apply sorted_by_sorted.
      - intros a b. apply by_content_total.
      - intros a b c. apply by_content_trans. }
    apply (order_by_In leb P r') in Hr'. rewrite Hsplit in Hr', Hsorted.
    apply in_app_or in Hr' as [Hr'|[<-|Hr']].
    + now destruct (Hl1 r' Hr').
    + apply Qle_refl.
    + pose proof (@StronglySorted_app_later scored (fun a b => leb a b = true)
                    l1 l2 r r' Hsorted Hr') as Hle.
      unfold leb in Hle. rewrite <- Hc in Hle.
      rewrite (proj2 (str_compare_eq _ _) eq_refl) in Hle.
      now apply Qle_bool_iff.
Qed.

(** ** Labels without locators *)

Lemma format_from_plain (docs : list Document) (i : nat) :
  (forall doc, In doc docs -> forall j, format_doc j doc = plain_chunk j doc) ->
  format_from i docs = plain_chunks i docs.
Proof.
  revert i; induction docs as [|doc docs IH]; intros i H; [reflexivity|].
  cbn [format_from plain_chunks]. rewrite (H doc (or_introl eq_refl)).
  f_equal. apply IH. intros d Hd. apply H. now right.
Qed.

Lemma locating_false (t : str) :
  ~ In t locating_types ->
  str_eqb t (py "pdf") = false /\ str_eqb t (py "pptx") = false /\
  str_eqb t (py "xlsx") = false.
Proof.
  intros H. repeat split; apply str_eqb_neq; intros ->; apply H;
    unfold locating_types; cbn [map In]; tauto.
Qed.

(** A document whose type tag is none of pdf, pptx, xlsx is labelled
    without a locator. *)
Lemma format_doc_plain (i : nat) (doc : Document) :
  (forall t, dict_get (metadata doc) (py "type") = Some (JStr t) ->
             ~ In t locating_types) ->
  format_doc i doc = plain_chunk i doc.
Proof.
  intros H. unfold format_doc, plain_chunk, source_label, dict_get_default.
  destruct (dict_get (metadata doc) (py "type")) as [[t|n]|].
  - destruct (locating_false t (H t eq_refl)) as [E1 [E2 E3]].
    cbn [json_eqb]. rewrite E1, E2, E3. reflexivity.
  - reflexivity.
  - reflexivity.
Qed.

Lemma file_not_locating : ~ In (py "file") locating_types.
Proof. not_in_by_computation. Qed.

(** ** [load_pdf] *)

Lemma strip_nil_of_nil : strip [] = [].
Proof. reflexivity. Qed.

Lemma has_text_blank (page : option str) :
  match page with
  | Some text => negb (len text =? 0) && negb (len (strip text) =? 0)
  | None => false
  end = false <-> blank page.
Proof.
  destruct page as [text|]; [|split; [intros _; exact I|reflexivity]].
  unfold blank, len.
  destruct text as [|c text]; [split; reflexivity|].
  cbn [length Nat.eqb negb andb].
  destruct (strip (c :: text)) as [|c' t']; cbn [length Nat.eqb negb];
    split; congruence.
Qed.

Lemma load_pdf_pages_In (file_path : str) (pages : list (option str)) (i : nat)
    (doc : Document) :
  In doc (load_pdf_pages file_path i pages) <->
  exists j text, nth_error pages j = Some (Some text) /\ ~ blank (Some text) /\
                 doc = pdf_document file_path (i + j) text.
Proof.
  revert i; induction pages as [|page pages IH]; intros i.
  - cbn. split; [intros []|]. intros [[|j] [text [H _]]]; discriminate.
  - cbn [load_pdf_pages].
    pose proof (has_text_blank page) as Hb.
    assert (Hrest : In doc (load_pdf_pages file_path (S i) pages) <->
              exists j text, nth_error (page :: pages) (S j) = Some (Some text) /\
                ~ blank (Some text) /\ doc = pdf_document file_path (i + S j) text).
    { rewrite IH. split; intros [j [text [H1 [H2 H3]]]]; exists j, text;
        (split; [exact H1|split; [exact H2|]]);
        [now rewrite <- Nat.add_succ_comm|now rewrite Nat.add_succ_comm]. }
    destruct page as [text|].
    + destruct (negb (len text =? 0) && negb (len (strip text) =? 0)) eqn:E.
      * cbn [In]. rewrite Hrest. split.
        -- intros [<-|[j [t [H1 [H2 H3]]]]].
           ++ exists 0, text. rewrite Nat.add_0_r. repeat split.
              intros Hbl. apply Hb in Hbl. congruence.
           ++ now exists (S j), t.
        -- intros [[|j] [t [H1 [H2 H3]]]].
           ++ left. cbn in H1. injection H1 as <-. rewrite Nat.add_0_r in H3.
              now rewrite H3.
           ++ right. now exists j, t.
      * rewrite Hrest. split.
        -- intros [j [t [H1 [H2 H3]]]]. now exists (S j), t.
        -- intros [[|j] [t [H1 [H2 H3]]]].
           ++ cbn in H1. injection H1 as <-. exfalso. apply H2. now apply Hb.
           ++ now exists j, t.
    + rewrite Hrest. split.
      * intros [j [t [H1 [H2 H3]]]]. now exists (S j), t.
      * intros [[|j] [t [H1 [H2 H3]]]]; [discriminate|now exists j, t].
Qed.

Lemma load_pdf_pages_count (file_path : str) (pages : list (option str)) (i : nat) :
  length (load_pdf_pages file_path i pages) <= length pages.
Proof.
  revert i; induction pages as [|page pages IH]; intros i; [apply le_n|].
  cbn [load_pdf_pages length]. specialize (IH (S i)).
  destruct page as [text|]; [|lia].
  destruct (negb (len text =? 0) && negb (len (strip text) =? 0));
    cbn [length]; lia.
Qed.

(** X16: [load_pdf] raises, with the message that the PDF contains no
    extractable text, exactly when every page is blank; otherwise it
    returns, for every page that is not blank and no other, a document
    with the page's text, the path as source, the type tag file and the
    page's position counted from one among all pages. *)
Theorem load_pdf_spec (file_path : str) (pages : list (option str)) :
  match load_pdf file_path pages with
  | Ok docs =>
      docs <> [] /\ length docs <= length pages /\
      forall doc, In doc docs <->
        exists j text, nth_error pages j = Some (Some text) /\
                       ~ blank (Some text) /\
                       doc = pdf_document file_path j text
  | Raise e =>
      e = Exception (py "PDF contains no extractable text") /\
      forall page, In page pages -> blank page
  end.
Proof.
  unfold load_pdf.
  pose proof (load_pdf_pages_In file_path pages 0) as Hin.
  pose proof (load_pdf_pages_count file_path pages 0) as Hlen.
  destruct (load_pdf_pages file_path 0 pages) as [|d docs].
  - split; [reflexivity|]. intros page Hp.
    destruct page as [text|]; [|exact I].
    destruct (strip text) as [|c t] eqn:Es; [exact Es|]. exfalso.
    apply In_nth_error in Hp as [j Hj].
    apply (proj2 (Hin (pdf_document file_path (0 + j) text))).
    exists j, text. repeat split; [assumption|]. cbn [blank]. congruence.
  - split; [discriminate|]. split; [assumption|]. exact Hin.
Qed.

(** X17: the documents [load_pdf] returns all carry a page number, and
    [format_docs] labels every one of them with the path alone: the page
    is not in the context. *)
Theorem load_pdf_formatted_without_page (file_path : str) (pages : list (option str))
    (docs : list Document) :
  load_pdf file_path pages = Ok docs ->
  format_docs docs = join separator (plain_chunks 0 docs) /\
  forall doc, In doc docs ->
    source_label doc = file_path /\
    exists n, dict_get (metadata doc) (py "page") = Some (JInt n).
Proof.
  intros H. pose proof (load_pdf_pages_In file_path pages 0) as Hin.
  unfold load_pdf in H.
  assert (Hdocs : load_pdf_pages file_path 0 pages = docs)
    by (destruct (load_pdf_pages file_path 0 pages); [discriminate|congruence]).
  rewrite Hdocs in Hin. clear H Hdocs.
  assert (Hshape : forall doc, In doc docs ->
            exists j text, doc = pdf_document file_path j text).
  { intros doc Hd. apply Hin in Hd as [j [text [_ [_ ->]]]]. now exists j, text. }
  split.
  - unfold format_docs. fold separator. f_equal. apply format_from_plain.
    intros doc Hd i. destruct (Hshape doc Hd) as [j [text ->]].
    apply format_doc_plain. intros t Ht. cbn in Ht. injection Ht as <-.
    apply file_not_locating.
  - intros doc Hd. destruct (Hshape doc Hd) as [j [text ->]].
    split; [reflexivity|]. now exists (Z.of_nat j + 1)%Z.
Qed.

(** ** The migration and the labels *)

(** X18: a stored row tagged pdf that carries a page is labelled with the
    page; once migrated, the same row, like every migrated row, is
    labelled with its name alone, the name being unchanged. *)
Theorem migration_drops_locator (d : row) (i : nat) :
  format_doc i (stored_document (migrate_row d)) =
    plain_chunk i (stored_document (migrate_row d)) /\
  source_label (stored_document (migrate_row d)) = source_label (stored_document d) /\
  page_content (stored_document (migrate_row d)) = content d /\
  (forall page,
     dict_get (row_metadata d) (py "type") = Some (JStr (py "pdf")) ->
     dict_get (row_metadata d) (py "page") = Some page ->
     format_doc i (stored_document d) = page_chunk i (stored_document d) page).
Proof.
  destruct (migrate_row_keeps d) as [Hc [_ Hk]].
  split; [|split; [|split]].
  - apply format_doc_plain. intros t Ht. cbn [stored_document metadata] in Ht.
    intros Hin.
    apply (migrate_row_type d t).
    + unfold type_text. now rewrite Ht.
    + unfold locating_types in Hin. unfold legacy_types.
      cbn [map In] in *. tauto.
  - unfold source_label, dict_get_default. cbn [stored_document metadata].
    rewrite !Hk; [reflexivity| |]; intros E; vm_compute in E; discriminate.
  - exact Hc.
  - intros page Ht Hp. unfold format_doc, page_chunk, source_label, dict_get_default.
    cbn [stored_document metadata page_content]. rewrite Ht, Hp.
    cbn [json_eqb]. rewrite str_eqb_refl. reflexivity.
Qed.

(** ** [load_pptx] *)



(** ** [extract_youtube_video_id] *)

Lemma take_id_sound (n : nat) (s id : str) :
  take_id n s = Some id ->
  length id = n /\ forallb id_char id = true /\ exists rest, s = id ++ rest.
Proof.
  revert s id; induction n as [|n IH]; intros s id; cbn [take_id].
  - intros H. injection H as <-. repeat split. now exists s.
  - destruct s as [|c s]; [discriminate|].
    destruct (id_char c) eqn:Ec; [|discriminate].
    destruct (take_id n s) as [id'|] eqn:E; [|discriminate].
    intros H. injection H as <-.
    destruct (IH s id' E) as [H1 [H2 [rest ->]]].
    cbn [length forallb]. rewrite Ec, H1, H2. repeat split. now exists rest.
Qed.

Lemma take_id_complete (id rest : str) :
  forallb id_char id = true -> take_id (length id) (id ++ rest) = Some id.
Proof.
  induction id as [|c id IH]; [reflexivity|].
  cbn [forallb length take_id app]. intros H.
  apply andb_true_iff in H as [Hc Hid]. now rewrite Hc, IH.
Qed.

Lemma skipn_prefix (p after : str) : skipn (len p) (p ++ after) = after.
Proof.
  unfold len. rewrite skipn_app, skipn_all, Nat.sub_diag. reflexivity.
Qed.

Lemma match_here_sound (prefixes : list str) (s id : str) :
  match_here prefixes s = Some id ->
  exists p rest, In p prefixes /\ s = p ++ id ++ rest /\
                 length id = 11 /\ forallb id_char id = true.
Proof.
  induction prefixes as [|p prefixes IH]; cbn [match_here]; [discriminate|].
  destruct (startswith s p) eqn:Es.
  - apply startswith_spec in Es as [after ->]. rewrite skipn_prefix.
    destruct (take_id 11 after) as [id'|] eqn:Et.
    + intros H. injection H as <-.
      destruct (take_id_sound 11 after id' Et) as [H1 [H2 [rest ->]]].
      exists p, rest. repeat split; try assumption. now left.
    + intros H. destruct (IH H) as [p' [rest [H1 H2]]].
      exists p', rest. split; [now right|assumption].
  - intros H. destruct (IH H) as [p' [rest [H1 H2]]].
    exists p', rest. split; [now right|assumption].
Qed.

Lemma match_here_complete (prefixes : list str) (p id rest : str) :
  In p prefixes -> length id = 11 -> forallb id_char id = true ->
  match_here prefixes (p ++ id ++ rest) <> None.
Proof.
  intros Hin Hlen Hid. induction prefixes as [|q prefixes IH]; [destruct Hin|].
  cbn [match_here].
  destruct (if startswith (p ++ id ++ rest) q
            then take_id 11 (skipn (len q) (p ++ id ++ rest)) else None) eqn:E;
    [discriminate|].
  destruct Hin as [->|Hin]; [|now apply IH].
  assert (Hs : startswith (p ++ id ++ rest) p = true)
    by (apply startswith_spec; now exists (id ++ rest)).
  rewrite Hs, skipn_prefix, <- Hlen, take_id_complete in E by assumption.
  discriminate.
Qed.

Lemma re_search_sound (prefixes : list str) (s id : str) :
  re_search prefixes s = Some id ->
  exists before p rest, In p prefixes /\ s = before ++ p ++ id ++ rest /\
                        length id = 11 /\ forallb id_char id = true.
Proof.
  induction s as [|c s IH]; cbn [re_search].
  - destruct (match_here prefixes []) as [id'|] eqn:E; [|discriminate].
    intros H. injection H as <-.
    destruct (match_here_sound _ _ _ E) as [p [rest [H1 H2]]].
    now exists [], p, rest.
  - destruct (match_here prefixes (c :: s)) as [id'|] eqn:E.
    + intros H. injection H as <-.
      destruct (match_here_sound _ _ _ E) as [p [rest [H1 H2]]].
      now exists [], p, rest.
    + intros H. destruct (IH H) as [before [p [rest [H1 [-> H3]]]]].
      exists (c :: before), p, rest. split; [assumption|]. now split.
Qed.

Lemma re_search_complete (prefixes : list str) (before p id rest : str) :
  In p prefixes -> length id = 11 -> forallb id_char id = true ->
  re_search prefixes (before ++ p ++ id ++ rest) <> None.
Proof.
  intros Hin Hlen Hid. induction before as [|c before IH].
  - cbn [app]. pose proof (match_here_complete prefixes p id rest Hin Hlen Hid) as H.
    destruct (p ++ id ++ rest) as [|c s]; cbn [re_search];
      destruct (match_here prefixes _); congruence.
  - cbn [app re_search].
    destruct (match_here prefixes (c :: before ++ p ++ id ++ rest));
      [discriminate|exact IH].
Qed.

(** The second and the third pattern match only where the first does. *)
Lemma later_patterns_subsumed (prefix url id : str) :
  re_search [prefix ++ py "/"] url = Some id ->
  re_search [py "v="; py "/"] url <> None.
Proof.
  intros H.
  destruct (re_search_sound _ _ _ H) as [before [p [rest [Hp [-> [Hlen Hid]]]]]].
  destruct Hp as [<-|[]].
  rewrite <- (app_assoc prefix), (app_assoc before prefix).
  apply re_search_complete; [right; now left|assumption|assumption].
Qed.

(** X20: the video id is decided by the first pattern alone.  The
    function returns an id exactly when the address contains [v=] or a
    slash followed by eleven characters out of letters, digits, underscore
    and hyphen, and the id returned is such a run of eleven characters. *)
Theorem extract_youtube_video_id_spec (url : str) :
  extract_youtube_video_id url = re_search [py "v="; py "/"] url /\
  (forall id, extract_youtube_video_id url = Some id ->
     length id = 11 /\ forallb id_char id = true /\
     exists before p after,
       url = before ++ p ++ id ++ after /\ (p = py "v=" \/ p = py "/")) /\
  (extract_youtube_video_id url = None <->
   ~ exists before p id after,
       url = before ++ p ++ id ++ after /\ (p = py "v=" \/ p = py "/") /\
       length id = 11 /\ forallb id_char id = true).
Proof.
  assert (Hfirst : extract_youtube_video_id url = re_search [py "v="; py "/"] url).
  { unfold extract_youtube_video_id, patterns. cbn [first_match].
    destruct (re_search [py "v="; py "/"] url) as [id|] eqn:E1; [reflexivity|].
    destruct (re_search [py "embed/"] url) as [id|] eqn:E2.
    { exfalso. apply (later_patterns_subsumed (py "embed") url id); assumption. }
    destruct (re_search [py "youtu.be/"] url) as [id|] eqn:E3; [|reflexivity].
    exfalso. apply (later_patterns_subsumed (py "youtu.be") url id); assumption. }
  split; [exact Hfirst|]. rewrite Hfirst. split.
  - intros id H.
    destruct (re_search_sound _ _ _ H) as [before [p [rest [Hp [-> [Hlen Hid]]]]]].
    repeat split; try assumption. exists before, p, rest.
    split; [reflexivity|]. destruct Hp as [<-|[<-|[]]]; auto.
  - split.
    + intros Hnone [before [p [id [after [-> [Hp [Hlen Hid]]]]]]].
      revert Hnone. apply re_search_complete; try assumption.
      destruct Hp as [-> | ->]; [now left|right; now left].
    + intros Hno. destruct (re_search [py "v="; py "/"] url) as [id|] eqn:E;
        [|reflexivity].
      exfalso. apply Hno.
      destruct (re_search_sound _ _ _ E) as [before [p [rest [Hp [-> [Hlen Hid]]]]]].
      exists before, p, id, rest. repeat split; try assumption.
      destruct Hp as [<-|[<-|[]]]; auto.
Qed.

(** ** Answering *)

Section Answering.

Variable cosine_distance : vector -> vector -> Q.
Variable ilike : str -> str -> bool.
Variable invoke : str -> list message -> str -> llm_content.

Lemma search_without_rows (query : str) (k : Z) (w : world)
    (query_embedding : vector) (w1 : world) :
  embed_query (expand_query query) default_max_retries w = (Ok query_embedding, w1) ->
  connect_error w = None ->
  documents w = [] \/ execute_error w <> None ->
  search_similar_documents cosine_distance ilike query k w = (Ok [], w1).
Proof.
  intros He Hconn Hcase. pose proof (search_cases cosine_distance ilike query k w) as Hc.
  rewrite He in Hc. apply embed_query_services in He as [_ [Hdocs [Hce Hee]]].
  rewrite Hce, Hconn in Hc. unfold execute in Hc.
  destruct (execute_error w1) eqn:Ex; [exact Hc|].
  destruct Hcase as [Hnone|Hfault]; [|congruence].
  rewrite Hdocs, Hnone in Hc. unfold run_statement, limit in Hc.
  destruct (limit_of _ <? 0)%Z; cbn [fst] in Hc; [exact Hc|].
  destruct (extract_keywords query) as [|kw kws];
    cbn [search_statement ranked] in Hc; rewrite Hc.
  - unfold order_by. cbn [sorted_by fold_right map]. now rewrite firstn_nil.
  - unfold combined, semantic, keyword, order_by.
    cbn [sorted_by fold_right map firstn filter app distinct_on_content].
    now rewrite firstn_nil.
Qed.

(** X21: when the query has been embedded and the connection obtained,
    and the table is empty or the database fails on the statement, the
    answer is the fixed sentence that nothing relevant was found, with no
    sources, whatever the language model would have said. *)
Theorem answer_without_documents (question : str) (chat_history : list turn)
    (w : world) (query_embedding : vector) (w1 : world) :
  embed_query (expand_query question) default_max_retries w =
    (Ok query_embedding, w1) ->
  connect_error w = None ->
  documents w = [] \/ execute_error w <> None ->
  get_rag_response_with_sources cosine_distance ilike invoke question chat_history w =
  (Ok (no_information, []), w1).
Proof.
  intros He Hconn Hcase. unfold get_rag_response_with_sources.
  rewrite bind_run.
  now rewrite (search_without_rows question 12 w query_embedding w1 He Hconn Hcase).
Qed.

End Answering.

(** ** Keywords inside the statement *)

Lemma dict_get_In {V : Type} (d : list (str * V)) (key : str) (v : V) :
  dict_get d key = Some v -> In (key, v) d.
Proof.
  induction d as [|[k v'] d IH]; cbn [dict_get]; [discriminate|].
  destruct (str_eqb k key) eqn:E.
  - intros H. injection H as ->. apply str_eqb_eq in E. subst k. now left.
  - intros H. right. now apply IH.
Qed.

Lemma synonyms_from_map (base x : str) :
  In x (synonyms base) ->
  exists en, In (base, en) KR_EN_MAP /\ x <> [] /\ spacefree x /\
             forall c, In c x -> In c en.
Proof.
  unfold synonyms. destruct (dict_get KR_EN_MAP base) as [en|] eqn:E; [|intros []].
  intros H. apply filter_In in H as [H _]. apply split_tokens in H as [H1 [H2 H3]].
  exists en. split; [now apply dict_get_In|]. now repeat split.
Qed.

Lemma map_values_without_apostrophe (k en : str) :
  In (k, en) KR_EN_MAP -> ~ In apostrophe en.
Proof.
  assert (H : forallb (fun item : str * str =>
                         negb (existsb (N.eqb apostrophe) (snd item)))
                      KR_EN_MAP = true) by (vm_compute; reflexivity).
  rewrite forallb_forall in H. intros Hin Hc. specialize (H (k, en) Hin).
  cbn [snd] in H. apply negb_true_iff in H.
  assert (Hex : existsb (N.eqb apostrophe) en = true).
  { apply existsb_exists. exists apostrophe. split; [assumption|apply N.eqb_refl]. }
  congruence.
Qed.

Lemma app_spacefree (a b : str) : spacefree (a ++ b) -> spacefree a.
Proof. unfold spacefree. intros H. now apply Forall_app in H as [H _]. Qed.

(** X22: no keyword that [extract_keywords] returns contains an
    apostrophe or white space, and none is empty: placed between the
    quotes of the statement's patterns, a keyword cannot end the string
    literal. *)
Theorem keywords_stay_inside_the_literal (query kw : str) :
  In kw (extract_keywords query) ->
  ~ In apostrophe kw /\ spacefree kw /\ kw <> [].
Proof.
  intros H. apply In_extract_keywords in H as [t [Ht Hx]].
  destruct (split_tokens _ _ Ht) as [Hne [Hsf Hchars]].
  assert (Htok : forall c, In c t -> c <> apostrophe).
  { intros c Hc ->. apply Hchars, re_sub_no_punctuation in Hc.
    vm_compute in Hc. discriminate. }
  assert (Hsyn : forall base, In kw (synonyms base) ->
            ~ In apostrophe kw /\ spacefree kw /\ kw <> []).
  { intros base Hs.
    destruct (synonyms_from_map base kw Hs) as [en [Hen [H1 [H2 H3]]]].
    repeat split; try assumption. intros Hc.
    apply (map_values_without_apostrophe base en Hen). now apply H3. }
  pose proof (extract_step_emits t (strip_spacefree t Hsf)) as He.
  destruct He as [Hd|H1 H2 H3|base suffix H1 H2 H3 H4 H5 H6 H7].
  - destruct Hx.
  - destruct Hx as [<-|Hx]; [|now apply (Hsyn t)].
    repeat split; try assumption. intros Hc. now apply (Htok apostrophe Hc).
  - destruct Hx as [<-|[<-|Hx]]; [| |now apply (Hsyn base)].
    + subst t. repeat split.
      * intros Hc. apply (Htok apostrophe); [|reflexivity].
        apply in_or_app. now left.
      * now apply app_spacefree with suffix.
      * intros E. subst base. cbn in H7. lia.
    + repeat split; try assumption. intros Hc. now apply (Htok apostrophe Hc).
Qed.

(** ** The pools of the hybrid search *)



(** ** Operations one after the other *)

(** X24: after [add_documents_to_vectorstore] has returned [n],
    [get_document_count] returns [n] more than before. *)
Theorem added_documents_are_counted (docs : list Document) (w : world) (n : Z)
    (w' : world) (before : Z) :
  add_documents_to_vectorstore docs w = (Ok n, w') ->
  get_document_count w = (Ok before, w) ->
  get_document_count w' = (Ok (before + n)%Z, w').
Proof.
  rewrite !get_document_count_run. destruct docs as [|d docs].
  - cbn. intros H. injection H as <- <-. intros H. injection H as <-.
    now rewrite Z.add_0_r.
  - intros H. pose proof (add_documents_cases (d :: docs) w ltac:(discriminate)) as Hc.
    pose proof (embed_texts_from_spec default_max_retries
                  (map page_content (d :: docs))
                  ltac:(vm_compute; discriminate) [] w) as Hall.
    fold (embed_texts (map page_content (d :: docs)) default_max_retries) in Hall.
    destruct (embed_texts (map page_content (d :: docs)) default_max_retries w)
      as [[embeddings|e] w1] eqn:Ee; [|congruence].
    apply embed_texts_services in Ee as [_ [Hdocs [Hce Hee]]].
    destruct (connect_error w1) eqn:E1; [congruence|].
    destruct (execute_error w1) eqn:E2; [congruence|].
    rewrite Hc in H. injection H as <- <-.
    cbn [connect_error execute_error documents set_documents].
    rewrite E1, E2, <- Hce, <- Hee, Hdocs. intros Hb. injection Hb as <-.
    destruct Hall as [new [Hnew [Hf _]]]. cbn [app] in Hnew. subst new.
    apply Forall2_length in Hf. rewrite length_map in Hf.
    f_equal. f_equal. rewrite length_app. unfold insert_data.
    rewrite length_map, length_combine. cbn [length] in *. lia.
Qed.

Lemma doc_type_of_migrated (d : row) : ~ In (doc_type_of (migrate_row d)) legacy_types.
Proof.
  unfold doc_type_of. destruct (type_text (migrate_row d)) as [t|] eqn:E.
  - now apply (migrate_row_type d).
  - not_in_by_computation.
Qed.

(** X25: after a migration on a working database the counts by type
    show none of the tags pdf, docx, pptx, xlsx, and they still add up to
    the number of rows there were. *)
Theorem migrated_counts_without_old_tags (w w' : world) (counts : list (str * Z)) :
  connect_error w = None -> execute_error w = None ->
  migrate_file_types w = (Ok tt, w') ->
  get_document_counts_by_type w' = (Ok counts, w') ->
  (forall t, In t legacy_types -> ~ In t (map fst counts)) /\
  fold_right Z.add 0%Z (map snd counts) = Z.of_nat (length (documents w)).
Proof.
  intros E1 E2. rewrite migrate_file_types_run, E1, E2.
  intros H. injection H as <-.
  rewrite get_document_counts_by_type_run.
  cbn [connect_error execute_error documents set_documents]. rewrite E1, E2.
  intros H. injection H as <-.
  destruct (counts_by_type_spec (map migrate_row (documents w)))
    as [_ [Hmem [_ Hsum]]].
  split.
  - intros t Ht Hin. apply in_map_iff in Hin as [[t' m] [Hfst Hin]].
    cbn in Hfst. subst t'. apply Hmem in Hin as [Hm Hpos].
    assert (Hc : 0 < count_type (map migrate_row (documents w)) t) by lia.
    apply count_type_positive in Hc as [d [Hd Hty]].
    apply in_map_iff in Hd as [d0 [<- _]].
    apply (doc_type_of_migrated d0). now rewrite Hty.
  - now rewrite Hsum, length_map.
Qed.

(** ** These properties at sample inputs *)

Lemma add_documents_appends_witness :
  1%Z = Z.of_nat (length [uploaded_page]).
Proof.
  apply (proj1 (add_documents_appends [uploaded_page] library_world 1%Z
                  (snd (add_documents_to_vectorstore [uploaded_page] library_world))
                  ltac:(vm_compute; reflexivity))).
Defined.


Lemma migrate_file_types_idempotent_witness :
  snd (migrate_file_types (snd (migrate_file_types archive_world))) =
  snd (migrate_file_types archive_world).
Proof.
  apply (migrate_file_types_idempotent archive_world
           (snd (migrate_file_types archive_world))
           (snd (migrate_file_types (snd (migrate_file_types archive_world)))));
    vm_compute; reflexivity.
Defined.

Lemma clear_vectorstore_by_type_again_witness :
  clear_vectorstore_by_type (py "news")
    (snd (clear_vectorstore_by_type (py "news") archive_world)) =
  (Ok 0%Z, snd (clear_vectorstore_by_type (py "news") archive_world)).
Proof.
  apply (clear_vectorstore_by_type_again (py "news") archive_world 1%Z
           (snd (clear_vectorstore_by_type (py "news") archive_world))).
  vm_compute. reflexivity.
Defined.

Lemma cleared_type_not_counted_witness :
  ~ In (py "news") (map fst [(py "pdf", 1%Z); (py "unknown", 1%Z)]).
Proof.
  apply (cleared_type_not_counted (py "news") archive_world 1%Z
           (snd (clear_vectorstore_by_type (py "news") archive_world))
           [(py "pdf", 1%Z); (py "unknown", 1%Z)]).
  - vm_compute. discriminate.
  - vm_compute. reflexivity.
  - vm_compute. reflexivity.
Defined.

Lemma embed_texts_cost_witness :
  calls (snd (embed_texts [py "a"; py "b"] 5 library_world)) <=
  calls library_world + Z.to_nat 5 * length [py "a"; py "b"].
Proof.
  apply (proj1 (embed_texts_cost [py "a"; py "b"] 5 library_world
                  (fst (embed_texts [py "a"; py "b"] 5 library_world))
                  (snd (embed_texts [py "a"; py "b"] 5 library_world))
                  ltac:(vm_compute; discriminate)
                  ltac:(vm_compute; reflexivity))).
Defined.

Lemma embed_texts_without_attempts_witness :
  embed_texts [py "a"; py "b"] 0 library_world = (Ok [], library_world).
Proof.
  apply (proj1 (embed_texts_without_attempts [py "a"; py "b"] 0 library_world
                  ltac:(vm_compute; discriminate))).
Defined.

Lemma search_reads_only_witness :
  same_services library_world
    (snd (search_similar_documents unit_distance ilike_plain (py "?") 12 library_world)).
Proof.
  apply (search_reads_only unit_distance ilike_plain (py "?") 12 library_world
           (fst (search_similar_documents unit_distance ilike_plain (py "?") 12
                   library_world))).
  vm_compute. reflexivity.
Defined.

Lemma run_statement_best_witness :
  exists rest,
    Permutation
      (candidates unit_distance ilike_plain (documents library_world)
                  (VectorSearch [1; 0]%Q 2))
      (map (score_row unit_distance [1; 0]%Q) [vision_row; vision_copy_row] ++ rest) /\
    (forall a b,
       In a (map (score_row unit_distance [1; 0]%Q) [vision_row; vision_copy_row]) ->
       In b rest ->
       (fused_score ilike_plain (VectorSearch [1; 0]%Q 2) b <=
        fused_score ilike_plain (VectorSearch [1; 0]%Q 2) a)%Q) /\
    (rest <> [] ->
     length (map (score_row unit_distance [1; 0]%Q) [vision_row; vision_copy_row]) =
     Z.to_nat (limit_of (VectorSearch [1; 0]%Q 2))).
Proof.
  apply (run_statement_best unit_distance ilike_plain (documents library_world)
           (VectorSearch [1; 0]%Q 2)
           (map (score_row unit_distance [1; 0]%Q) [vision_row; vision_copy_row])).
  vm_compute. reflexivity.
Defined.

Lemma load_pdf_formatted_without_page_witness :
  format_docs [pdf_document (py "/tmp/tmp8k2.pdf") 0 (py "Taejae vision statement")] =
  join separator
    (plain_chunks 0
       [pdf_document (py "/tmp/tmp8k2.pdf") 0 (py "Taejae vision statement")]).
Proof.
  apply (proj1 (load_pdf_formatted_without_page (py "/tmp/tmp8k2.pdf")
                  [Some (py "Taejae vision statement")]
                  [pdf_document (py "/tmp/tmp8k2.pdf") 0 (py "Taejae vision statement")]
                  ltac:(vm_compute; reflexivity))).
Defined.

Lemma answer_without_documents_witness :
  get_rag_response_with_sources unit_distance ilike_plain parrot
    (py "비전") [] outage_world =
  (Ok (no_information, []), outage_after).
Proof.
  apply (answer_without_documents unit_distance ilike_plain parrot (py "비전") []
           outage_world [1; 0]%Q outage_after).
  - vm_compute. reflexivity.
  - reflexivity.
  - right. vm_compute. discriminate.
Defined.

Lemma keywords_stay_inside_the_literal_witness :
  ~ In apostrophe (py "비전") /\ spacefree (py "비전") /\ py "비전" <> [].
Proof.
  apply (keywords_stay_inside_the_literal scenario_query (py "비전")).
  in_by_computation.
Defined.

Lemma added_documents_are_counted_witness :
  get_document_count
    (snd (add_documents_to_vectorstore [uploaded_page] library_world)) =
  (Ok (3 + 1)%Z, snd (add_documents_to_vectorstore [uploaded_page] library_world)).
Proof.
  apply (added_documents_are_counted [uploaded_page] library_world 1%Z
           (snd (add_documents_to_vectorstore [uploaded_page] library_world)) 3%Z);
    vm_compute; reflexivity.
Defined.

Lemma migrated_counts_without_old_tags_witness :
  (forall t, In t legacy_types ->
     ~ In t (map fst [(py "file", 1%Z); (py "news", 1%Z); (py "unknown", 1%Z)])) /\
  fold_right Z.add 0%Z
    (map snd [(py "file", 1%Z); (py "news", 1%Z); (py "unknown", 1%Z)]) =
  Z.of_nat (length (documents archive_world)).
Proof.
  apply (migrated_counts_without_old_tags archive_world
           (snd (migrate_file_types archive_world))
           [(py "file", 1%Z); (py "news", 1%Z); (py "unknown", 1%Z)]);
    vm_compute; reflexivity.
Defined.
